(** * The auth service of the AIS aviation system

    A shallow embedding of [src/auth-service]: the [users] table of
    [models.py], the request and response schemas of [schemas.py], the
    [OWNER_EMAIL] setting of [config.py] and the three handlers of [main.py]
    ([register], [login], [verify_password]) together with the request
    validation that FastAPI runs in front of them.

    Python strings are [string]s, one [ascii] standing for one character.
    The table is the list of its rows in the order a query returns them, the
    order of insertion.  Everything the
    handlers obtain from outside the repository is an explicit input: the
    random bits of [uuid.uuid4], the salt of the password hash, the
    database clock, and the library functions of [Platform]. *)

From Stdlib Require Import ZArith List String Ascii Bool Lia.
Import ListNotations.
Open Scope string_scope.
Open Scope Z_scope.

(** ** Library functions used by the handlers

    These are third-party code, so the model is parametric in them:
    - [str_lower] is Python's [str.lower];
    - [pwd_hash password salt] is [pwd_context.hash(password)] of passlib's
      bcrypt scheme, the fresh salt made explicit: the hash, or the exception
      the library throws (a password with a NUL character);
    - [pwd_verify password hash] is [pwd_context.verify(password, hash)]:
      the boolean answer, or the exception the library throws (a stored hash
      it cannot identify, a password with a NUL character or over its size
      limit);
    - [sql_eq stored given] is the comparison the database applies in
      [User.email == body.email] (exact or not, by the column's collation);
    - [validate_email] is pydantic's [EmailStr]: [None] when the address is
      rejected, otherwise the normalised address the handler receives. *)
Inductive library_result (A : Type) : Type :=
| Value (a : A)
| Throws (error : string).
Arguments Value {A} a.
Arguments Throws {A} error.

Class Platform : Type := {
  str_lower : string -> string;
  pwd_hash : string -> string -> library_result string;
  pwd_verify : string -> string -> library_result bool;
  sql_eq : string -> string -> bool;
  validate_email : string -> option string
}.

(** ** config.py *)

Record Settings : Type := { OWNER_EMAIL : string; APP_NAME : string }.

(** The defaults of [class Settings]. *)
Definition default_settings : Settings :=
  {| OWNER_EMAIL := ""; APP_NAME := "AIS Auth Service" |}.

(** ** models.py *)

Module User.
(** A row of the table [users]. *)
Record t : Type := mk {
  id : Z;
  openId : string;
  name : option string;
  email : option string;
  passwordHash : option string;
  loginMethod : option string;
  role : string;
  createdAt : Z;
  updatedAt : Z;
  lastSignedIn : Z
}.

(** A transient [User(...)] object: the columns the constructor call set,
    [None] for a column it left out. *)
Record pending : Type := new {
  p_openId : option string;
  p_name : option string;
  p_email : option string;
  p_passwordHash : option string;
  p_loginMethod : option string;
  p_role : option string
}.

(** The values of the [Enum] column [role]. *)
Definition role_values : list string :=
  ["user"; "admin"; "super_admin"; "airline_admin"; "finance"; "ops"; "support"].

(** [default="user"] of the column [role]. *)
Definition role_default : string := "user".
End User.

(** ** schemas.py *)

Module RegisterRequest.
Record t : Type := mk { email : string; password : string; name : option string }.
End RegisterRequest.

Module LoginRequest.
Record t : Type := mk { email : string; password : string }.
End LoginRequest.

Module VerifyPasswordRequest.
Record t : Type := mk { email : string; password : string }.
End VerifyPasswordRequest.

Module UserResponse.
Record t : Type := mk {
  id : Z;
  openId : string;
  name : option string;
  email : option string;
  role : string
}.

(** [UserResponse.model_validate(user)] with [from_attributes = True]. *)
Definition model_validate (u : User.t) : t :=
  {| id := User.id u; openId := User.openId u; name := User.name u;
     email := User.email u; role := User.role u |}.
End UserResponse.

Module AuthResponse.
Record t : Type := mk {
  success : bool;
  user : option UserResponse.t;
  message : option string
}.
End AuthResponse.

(** A JSON body as it arrives, before any schema is applied to it. *)
Record RawBody : Type := {
  raw_email : string;
  raw_password : string;
  raw_name : option string
}.

(** ** The database session *)

Definition Store : Type := list User.t.

(** What a handler can raise: the [HTTPException]s of [main.py], the errors
    of the database layer on a refused insert, and the exceptions of the
    password library, which no handler catches. *)
Inductive exn : Type :=
| HTTPException (status_code : Z) (detail : string)
| IntegrityError (constraint : string)
| DataError (column : string)
| LibraryError (error : string).

Inductive outcome (A : Type) : Type :=
| Returned (a : A)
| Raised (e : exn).
Arguments Returned {A} a.
Arguments Raised {A} e.

(** A computation in a request's session: it reads the committed table and
    returns the table as committed when it ends.  A raise keeps the table of
    that moment; [get_db] closes the session and nothing pending survives. *)
Definition Session (A : Type) : Type := Store -> outcome A * Store.

Definition ret {A : Type} (a : A) : Session A := fun db => (Returned a, db).

Definition raise {A : Type} (e : exn) : Session A := fun db => (Raised e, db).

(** A call into the password library from a handler: its value, or its
    exception raised through the handler. *)
Definition call {A : Type} (r : library_result A) : Session A :=
  match r with
  | Value a => ret a
  | Throws error => raise (LibraryError error)
  end.

Definition bind {A B : Type} (m : Session A) (k : A -> Session B) : Session B :=
  fun db =>
    match m db with
    | (Returned a, db') => k a db'
    | (Raised e, db') => (Raised e, db')
    end.

Declare Scope session_scope.
Delimit Scope session_scope with session.
Notation "x <- m ;; k" := (bind m (fun x => k))
  (at level 100, m at next level, right associativity) : session_scope.
Open Scope session_scope.

Definition HTTP_409_CONFLICT : Z := 409.
Definition HTTP_401_UNAUTHORIZED : Z := 401.

(** Python truthiness of an optional string: [None] and [""] are false. *)
Definition truthy (s : option string) : bool :=
  match s with
  | Some h => negb (h =? "")%string
  | None => false
  end.

Fixpoint max_id (db : Store) : Z :=
  match db with
  | [] => 0
  | u :: rest => Z.max (User.id u) (max_id rest)
  end.

(** ** uuid.uuid4 and the external identifier

    [uuid.uuid4()] of the Python standard library is
    [UUID(bytes=os.urandom(16), version=4)]; [r] below is the integer
    [int.from_bytes(os.urandom(16))], the only random input. *)

(** The constructor's [version] branch:
    [int &= ~(0xc000 << 48); int |= 0x8000 << 48;
     int &= ~(0xf000 << 64); int |= version << 76]. *)
Definition uuid4_int (r : Z) : Z :=
  let i := Z.land r (Z.lnot (Z.shiftl 0xc000 48)) in
  let i := Z.lor i (Z.shiftl 0x8000 48) in
  let i := Z.land i (Z.lnot (Z.shiftl 0xf000 64)) in
  Z.lor i (Z.shiftl 4 76).

(** The digit [%x] prints for a value in 0..15. *)
Definition hex_digit (d : Z) : ascii :=
  if d <? 10 then ascii_of_N (Z.to_N (48 + d))
  else ascii_of_N (Z.to_N (87 + d)).

(** The hexadecimal digit of weight [16^k] of [n]. *)
Definition nibble (n : Z) (k : nat) : Z :=
  Z.land (Z.shiftr n (4 * Z.of_nat k)) 15.

(** The [w] low hexadecimal digits of [n], most significant first. *)
Fixpoint hex_digits (w : nat) (n : Z) : list ascii :=
  match w with
  | O => []
  | S k => hex_digit (nibble n k) :: hex_digits k n
  end.

(** [UUID.hex], that is ['%032x' % self.int], for the 128-bit integer of a
    UUID. *)
Definition uuid_hex (n : Z) : string :=
  string_of_list_ascii (hex_digits 32 n).

(** [f"local_{uuid.uuid4().hex[:16]}"] *)
Definition new_open_id (r : Z) : string :=
  "local_" ++ substring 0 16 (uuid_hex (uuid4_int r)).

Section Service.
Context {P : Platform}.

(** The predicate of [.filter(User.email == e)]: a NULL email matches
    nothing. *)
Definition email_is (e : string) (u : User.t) : bool :=
  match User.email u with
  | Some stored => sql_eq stored e
  | None => false
  end.

(** The first row, in table order, whose email matches [e]. *)
Definition first_by_email (e : string) (db : Store) : option User.t :=
  find (email_is e) db.

(** [db.query(User).filter(User.email == e).first()] *)
Definition query_first_by_email (e : string) : Session (option User.t) :=
  fun db => (Returned (first_by_email e db), db).

Definition openId_used (o : string) (db : Store) : bool :=
  existsb (fun u => (User.openId u =? o)%string) db.

Definition in_enum (r : string) : bool :=
  existsb (fun v => (v =? r)%string) User.role_values.

(** [db.add(user); db.commit(); db.refresh(user)]: the insert applies the
    column declarations of [models.py] ([nullable=False] and [unique=True]
    on [openId], the [Enum] and the default of [role], the autoincremented
    key, [func.now()] for the three timestamps); a refused insert raises
    and leaves the table as it was. *)
Definition add_commit_refresh (u : User.pending) (now : Z) : Session User.t :=
  fun db =>
    match User.p_openId u with
    | None => (Raised (IntegrityError "openId NOT NULL"), db)
    | Some o =>
        if openId_used o db then (Raised (IntegrityError "openId UNIQUE"), db)
        else
          let r := match User.p_role u with
                   | Some r => r
                   | None => User.role_default
                   end in
          if in_enum r then
            let row := {| User.id := max_id db + 1;
                          User.openId := o;
                          User.name := User.p_name u;
                          User.email := User.p_email u;
                          User.passwordHash := User.p_passwordHash u;
                          User.loginMethod := User.p_loginMethod u;
                          User.role := r;
                          User.createdAt := now;
                          User.updatedAt := now;
                          User.lastSignedIn := now |} in
            (Returned row, (db ++ [row])%list)
          else (Raised (DataError "role"), db)
    end.

(** The guard [if not user or not user.passwordHash] of [login] and
    [verify_password]: [None] when the guard fires, otherwise the row and
    the hash that [pwd_context.verify] is then given. *)
Definition with_password (user : option User.t) : option (User.t * string) :=
  match user with
  | None => None
  | Some u => if truthy (User.passwordHash u)
              then match User.passwordHash u with
                   | Some h => Some (u, h)
                   | None => None
                   end
              else None
  end.

Variable settings : Settings.

(** [register]: the random integer behind [uuid4], the salt drawn by
    [pwd_context.hash] and the database clock are its extra inputs. *)
Definition register (body : RegisterRequest.t) (r : Z) (salt : string) (now : Z)
  : Session AuthResponse.t :=
  existing <- query_first_by_email (RegisterRequest.email body) ;;
  match existing with
  | Some _ =>
      raise (HTTPException HTTP_409_CONFLICT
               "A user with this email already exists.")
  | None =>
      let open_id := new_open_id r in
      hashed <- call (pwd_hash (RegisterRequest.password body) salt) ;;
      let role :=
        if negb (OWNER_EMAIL settings =? "")%string
           && (str_lower (RegisterRequest.email body)
               =? str_lower (OWNER_EMAIL settings))%string
        then "admin" else "user" in
      let user := {| User.p_openId := Some open_id;
                     User.p_name := RegisterRequest.name body;
                     User.p_email := Some (RegisterRequest.email body);
                     User.p_passwordHash := Some hashed;
                     User.p_loginMethod := Some "password";
                     User.p_role := Some role |} in
      user <- add_commit_refresh user now ;;
      ret {| AuthResponse.success := true;
             AuthResponse.user := Some (UserResponse.model_validate user);
             AuthResponse.message := Some "Registration successful." |}
  end.

(** [login] *)
Definition login (body : LoginRequest.t) : Session AuthResponse.t :=
  user <- query_first_by_email (LoginRequest.email body) ;;
  match with_password user with
  | None =>
      raise (HTTPException HTTP_401_UNAUTHORIZED "Invalid email or password.")
  | Some (user, passwordHash) =>
      verified <- call (pwd_verify (LoginRequest.password body) passwordHash) ;;
      if negb verified then
        raise (HTTPException HTTP_401_UNAUTHORIZED "Invalid email or password.")
      else
        ret {| AuthResponse.success := true;
               AuthResponse.user := Some (UserResponse.model_validate user);
               AuthResponse.message := Some "Login successful." |}
  end.

(** [verify_password] *)
Definition verify_password (body : VerifyPasswordRequest.t)
  : Session AuthResponse.t :=
  user <- query_first_by_email (VerifyPasswordRequest.email body) ;;
  match with_password user with
  | None =>
      ret {| AuthResponse.success := false;
             AuthResponse.user := None;
             AuthResponse.message := Some "User not found or no password set." |}
  | Some (user, passwordHash) =>
      verified <- call (pwd_verify (VerifyPasswordRequest.password body)
                          passwordHash) ;;
      if negb verified then
        ret {| AuthResponse.success := false;
               AuthResponse.user := None;
               AuthResponse.message := Some "Password does not match." |}
      else
        ret {| AuthResponse.success := true;
               AuthResponse.user := Some (UserResponse.model_validate user);
               AuthResponse.message := Some "Password verified." |}
  end.

(** *** Request validation and the HTTP layer *)

Definition len (s : string) : Z := Z.of_nat (String.length s).

(** [RegisterRequest]: [email: EmailStr],
    [password: str = Field(min_length=8, max_length=128)]. *)
Definition validate_RegisterRequest (raw : RawBody) : option RegisterRequest.t :=
  match validate_email (raw_email raw) with
  | None => None
  | Some e =>
      if (8 <=? len (raw_password raw)) && (len (raw_password raw) <=? 128)
      then Some {| RegisterRequest.email := e;
                   RegisterRequest.password := raw_password raw;
                   RegisterRequest.name := raw_name raw |}
      else None
  end.

(** [LoginRequest]: [email: EmailStr], [password: str = Field(min_length=1)]. *)
Definition validate_LoginRequest (raw : RawBody) : option LoginRequest.t :=
  match validate_email (raw_email raw) with
  | None => None
  | Some e =>
      if 1 <=? len (raw_password raw)
      then Some {| LoginRequest.email := e;
                   LoginRequest.password := raw_password raw |}
      else None
  end.

(** [VerifyPasswordRequest]: [email: str], [password: str]. *)
Definition validate_VerifyPasswordRequest (raw : RawBody)
  : option VerifyPasswordRequest.t :=
  Some {| VerifyPasswordRequest.email := raw_email raw;
          VerifyPasswordRequest.password := raw_password raw |}.

(** What the client receives. *)
Inductive response : Type :=
| Json200 (body : AuthResponse.t)
| HttpError (status_code : Z) (detail : string)
| ValidationError422
| InternalServerError500.

Definition respond (o : outcome AuthResponse.t) : response :=
  match o with
  | Returned a => Json200 a
  | Raised (HTTPException c d) => HttpError c d
  | Raised _ => InternalServerError500
  end.

(** A route: FastAPI validates the body against the handler's schema and
    calls the handler only with a body that passed. *)
Definition route {B : Type} (validate : RawBody -> option B)
    (handler : B -> Session AuthResponse.t) (raw : RawBody) (db : Store)
  : response * Store :=
  match validate raw with
  | None => (ValidationError422, db)
  | Some body => let (o, db') := handler body db in (respond o, db')
  end.

Inductive request : Type :=
| POST_register (raw : RawBody) (r : Z) (salt : string) (now : Z)
| POST_login (raw : RawBody)
| POST_verify_password (raw : RawBody).

Definition serve (q : request) : Store -> response * Store :=
  match q with
  | POST_register raw r salt now =>
      route validate_RegisterRequest (fun b => register b r salt now) raw
  | POST_login raw => route validate_LoginRequest login raw
  | POST_verify_password raw =>
      route validate_VerifyPasswordRequest verify_password raw
  end.

(** The table after a sequence of requests. *)
Fixpoint serve_all (qs : list request) (db : Store) : Store :=
  match qs with
  | [] => db
  | q :: rest => serve_all rest (snd (serve q db))
  end.
End Service.

(** ** A platform to run the handlers on

    ASCII case mapping, a toy hash that keeps salt and password apart, exact
    string comparison in the database, and an address check that asks for an
    [@] with text on both sides.  Like passlib, the toy hash throws on a
    password with a NUL character or of more than 4096 characters, and its
    verification also on a stored hash that is not one of its own.  The
    theorems below hold for every [Platform]; this one serves to evaluate
    the handlers on examples. *)

Definition ascii_lower (c : ascii) : ascii :=
  let n := nat_of_ascii c in
  if ((65 <=? n) && (n <=? 90))%nat then ascii_of_nat (n + 32) else c.

Fixpoint lower (s : string) : string :=
  match s with
  | EmptyString => EmptyString
  | String c rest => String (ascii_lower c) (lower rest)
  end.

(** What follows the first occurrence of [sep] in [s]. *)
Fixpoint after (sep : ascii) (s : string) : option string :=
  match s with
  | EmptyString => None
  | String c rest => if (c =? sep)%char then Some rest else after sep rest
  end.

Definition simple_email (s : string) : option string :=
  match s, after "@" s with
  | String c _, Some (String _ _) => if (c =? "@")%char then None else Some s
  | _, _ => None
  end.

Fixpoint has_nul (s : string) : bool :=
  match s with
  | EmptyString => false
  | String c rest => (c =? Ascii.zero)%char || has_nul rest
  end.

(** The password checks passlib makes before it hashes or verifies. *)
Definition password_refused (password : string) : option string :=
  if has_nul password then Some "PasswordValueError"
  else if (4096 <? String.length password)%nat then Some "PasswordSizeError"
  else None.

Definition toy_platform : Platform := {|
  str_lower := lower;
  pwd_hash := fun password salt =>
    match password_refused password with
    | Some error => Throws error
    | None => Value ("$toy$" ++ salt ++ "$" ++ password)
    end;
  pwd_verify := fun password hash =>
    match password_refused password with
    | Some error => Throws error
    | None =>
        if prefix "$toy$" hash then
          match after "$" (substring 5 (String.length hash) hash) with
          | Some p => Value (p =? password)%string
          | None => Throws "UnknownHashError"
          end
        else Throws "UnknownHashError"
    end;
  sql_eq := String.eqb;
  validate_email := simple_email
|}.

(** ** Vocabulary of the properties *)

Section Vocabulary.
Context {P : Platform}.

(** The owner email is configured and [email] equals it up to case. *)
Definition owner_matches (settings : Settings) (email : string) : Prop :=
  OWNER_EMAIL settings <> "" /\
  str_lower email = str_lower (OWNER_EMAIL settings).

(** The lookup by [e] finds nothing, or a row without a password hash
    ([NULL] or empty). *)
Definition unknown_or_passwordless (e : string) (db : Store) : Prop :=
  first_by_email e db = None \/
  exists u, first_by_email e db = Some u /\
            (User.passwordHash u = None \/ User.passwordHash u = Some "").

(** The lookup by [e] finds the row [u] with a hash [h] that [pw] does or
    does not verify against. *)
Definition password_checked (e pw : string) (db : Store) (u : User.t)
    (verdict : bool) : Prop :=
  exists h, first_by_email e db = Some u /\ User.passwordHash u = Some h /\
            h <> "" /\ pwd_verify pw h = Value verdict.

(** The lookup by [e] finds a row with a hash, and the library throws
    [error] when asked to verify [pw] against it. *)
Definition verification_throws (e pw : string) (db : Store) (error : string)
  : Prop :=
  exists u h, first_by_email e db = Some u /\ User.passwordHash u = Some h /\
              h <> "" /\ pwd_verify pw h = Throws error.

(** The verification steps in the words of the specification: look the
    record up by email; absent or without a password hash is one failure;
    otherwise verify the password against the stored hash, a mismatch being
    the other failure; the verification may also throw. *)
Inductive verdict : Type :=
| NoUsableRecord
| Mismatch
| Verified (u : User.t)
| CheckThrew (error : string).

Definition credential_check (e pw : string) (db : Store) : verdict :=
  match first_by_email e db with
  | None => NoUsableRecord
  | Some u =>
      match User.passwordHash u with
      | None => NoUsableRecord
      | Some h =>
          if (h =? "")%string then NoUsableRecord
          else match pwd_verify pw h with
               | Value true => Verified u
               | Value false => Mismatch
               | Throws error => CheckThrew error
               end
      end
  end.
End Vocabulary.

(** The error of a failed [login]. *)
Definition AuthError : exn :=
  HTTPException 401 "Invalid email or password.".

(** The error of a [register] whose email is taken. *)
Definition ConflictError : exn :=
  HTTPException 409 "A user with this email already exists.".

(** The two soft failures of [verify_password]. *)
Definition soft_failure (reason : string) : AuthResponse.t :=
  {| AuthResponse.success := false;
     AuthResponse.user := None;
     AuthResponse.message := Some reason |}.

Definition reason_A : string := "User not found or no password set.".
Definition reason_B : string := "Password does not match.".

Definition succeeded (msg : string) (u : User.t) : AuthResponse.t :=
  {| AuthResponse.success := true;
     AuthResponse.user := Some (UserResponse.model_validate u);
     AuthResponse.message := Some msg |}.

(** Every row's role is one of the seven values of the column. *)
Definition roles_ok (db : Store) : Prop :=
  Forall (fun u => In (User.role u) User.role_values) db.

Definition is_hex (c : ascii) : Prop :=
  In c (list_ascii_of_string "0123456789abcdef").

(** The identifiers [register] can generate: [local_], then sixteen
    lower-case hexadecimal digits of which the thirteenth is the version
    digit of the UUID. *)
Definition open_id_shape (o : string) : Prop :=
  exists s, o = "local_" ++ s /\
            String.length s = 16%nat /\
            Forall is_hex (list_ascii_of_string s) /\
            String.get 12 s = Some "4"%char.

(** ** Example data: the scenario of the specification *)

Definition owner_settings : Settings :=
  {| OWNER_EMAIL := "owner@x.com"; APP_NAME := "AIS Auth Service" |}.

Definition body (e pw : string) : RawBody :=
  {| raw_email := e; raw_password := pw; raw_name := None |}.

(** The table after the owner and [a@x.com] have registered. *)
Definition scenario_db : Store :=
  @serve_all toy_platform owner_settings
    [POST_register (body "owner@x.com" "longpassword1") 0 "s1" 100;
     POST_register (body "a@x.com" "longpassword1") (2 ^ 64) "s2" 200]
    [].

Definition register_request (e pw : string) : RegisterRequest.t :=
  {| RegisterRequest.email := e; RegisterRequest.password := pw;
     RegisterRequest.name := None |}.

Definition login_request (e pw : string) : LoginRequest.t :=
  {| LoginRequest.email := e; LoginRequest.password := pw |}.


(** A password of 129 characters. *)
Definition long_password : string :=
  string_of_list_ascii (repeat "a"%char 129).



(** A row written by another login method: no password hash. *)
Definition social_row : User.t :=
  {| User.id := 7; User.openId := "google_123"; User.name := None;
     User.email := Some "s@x.com"; User.passwordHash := None;
     User.loginMethod := Some "google"; User.role := "user";
     User.createdAt := 50; User.updatedAt := 50; User.lastSignedIn := 50 |}.

(** ** The CORS origins of main.py

    [origins = [o.strip() for o in settings.CORS_ORIGINS.split(",") if o.strip()]],
    as a function of the setting's value. *)

(** The characters [str.strip()] removes, among the first 256 code points:
    tab to carriage return, the four separators 28 to 31, the space, NEL and
    the no-break space. *)
Definition isspace (c : ascii) : bool :=
  let n := nat_of_ascii c in
  (((9 <=? n) && (n <=? 13)) || ((28 <=? n) && (n <=? 32))
   || (n =? 133) || (n =? 160))%nat.

Fixpoint lstrip (s : string) : string :=
  match s with
  | EmptyString => EmptyString
  | String c rest => if isspace c then lstrip rest else s
  end.

Fixpoint rstrip (s : string) : string :=
  match s with
  | EmptyString => EmptyString
  | String c rest =>
      match rstrip rest with
      | EmptyString => if isspace c then EmptyString else String c EmptyString
      | kept => String c kept
      end
  end.

(** [s.strip()] *)
Definition strip (s : string) : string := rstrip (lstrip s).

(** [s.split(sep)] for a one-character separator: the pieces between the
    separators, empty pieces included, never an empty list. *)
Fixpoint split (sep : ascii) (s : string) : list string :=
  match s with
  | EmptyString => [EmptyString]
  | String c rest =>
      if (c =? sep)%char then EmptyString :: split sep rest
      else match split sep rest with
           | piece :: pieces => String c piece :: pieces
           | [] => [String c EmptyString]
           end
  end.

Definition origins (CORS_ORIGINS : string) : list string :=
  map strip (filter (fun o => negb (strip o =? "")%string)
               (split "," CORS_ORIGINS)).

(** An origin as [origins] returns them: not empty, nothing left to strip,
    no comma. *)
Definition clean_origin (o : string) : Prop :=
  o <> "" /\ strip o = o /\ ~ In ","%char (list_ascii_of_string o).

Definition first_char (s : string) : option ascii :=
  match s with
  | EmptyString => None
  | String c _ => Some c
  end.

Fixpoint last_char (s : string) : option ascii :=
  match s with
  | EmptyString => None
  | String c EmptyString => Some c
  | String _ rest => last_char rest
  end.

(** An origin that starts and ends with a character that is not white
    space, and holds no comma. *)
Definition trimmed_origin (o : string) : Prop :=
  (exists c, first_char o = Some c /\ isspace c = false) /\
  (exists c, last_char o = Some c /\ isspace c = false) /\
  ~ In ","%char (list_ascii_of_string o).

(** The default of [CORS_ORIGINS] in config.py. *)
Definition default_CORS_ORIGINS : string := "http://localhost:3000".

(** ** Further vocabulary *)

(** The value of a hexadecimal digit, 0 for any other character. *)
Definition hex_value (c : ascii) : Z :=
  let n := Z.of_nat (nat_of_ascii c) in
  if (48 <=? n) && (n <=? 57) then n - 48
  else if (97 <=? n) && (n <=? 102) then n - 87
  else 0.

(** The bits of the random integer that reach the identifier. *)
Definition open_id_bit (k : Z) : Prop :=
  64 <= k < 128 /\ ~ (76 <= k < 80).

Section MoreVocabulary.
Context {P : Platform}.

(** No row's email is matched by the email of an earlier row. *)
Definition emails_unique (db : Store) : Prop :=
  forall pre u post e,
    db = (pre ++ u :: post)%list -> User.email u = Some e ->
    first_by_email e pre = None.
End MoreVocabulary.

(** * The external identifier *)

(** The bits of a version-4 UUID above the variant field. *)
Lemma uuid4_int_bits_high (r k : Z) :
  64 <= k ->
  Z.testbit (uuid4_int r) k =
    if (76 <=? k) && (k <? 80) then Z.testbit 4 (k - 76) else Z.testbit r k.
Proof.
  intros Hk. unfold uuid4_int.
  rewrite Z.lor_spec, Z.land_spec, Z.lor_spec, Z.land_spec, !Z.lnot_spec by lia.
  rewrite !Z.shiftl_spec by lia.
  rewrite (Z.bits_above_log2 0xc000 (k - 48)) by (cbn; lia).
  rewrite (Z.bits_above_log2 0x8000 (k - 48)) by (cbn; lia).
  cbn [negb]. rewrite andb_true_r, orb_false_r.
  destruct (Z.leb_spec 76 k); cbn [andb].
  - destruct (Z.ltb_spec k 80).
    + assert (Hc : k = 76 \/ k = 77 \/ k = 78 \/ k = 79) by lia.
      destruct Hc as [-> | [-> | [-> | ->]]]; cbn; now rewrite ?andb_false_r.
    + rewrite (Z.bits_above_log2 0xf000 (k - 64)) by (cbn; lia).
      rewrite (Z.bits_above_log2 4 (k - 76)) by (cbn; lia).
      cbn [negb]. now rewrite andb_true_r, orb_false_r.
  - rewrite (Z.testbit_neg_r 4 (k - 76)) by lia.
    assert (Hc : 64 <= k < 76) by lia.
    replace (Z.testbit 0xf000 (k - 64)) with false.
    + cbn [negb]. now rewrite andb_true_r, orb_false_r.
    + assert (Hd : 0 <= k - 64 < 12) by lia. revert Hd. generalize (k - 64). intros j Hj.
      assert (Hj' : j = 0 \/ j = 1 \/ j = 2 \/ j = 3 \/ j = 4 \/ j = 5 \/ j = 6 \/ j = 7 \/ j = 8 \/ j = 9 \/ j = 10 \/ j = 11) by lia.
      repeat (destruct Hj' as [-> | Hj']; [reflexivity|]). now subst.
Qed.

Lemma nibble_bits (n : Z) (k : nat) (j : Z) :
  0 <= j ->
  Z.testbit (nibble n k) j = Z.testbit n (4 * Z.of_nat k + j) && (j <? 4).
Proof.
  intros Hj. unfold nibble. rewrite Z.land_spec, Z.shiftr_spec by lia.
  rewrite (Z.add_comm j). f_equal.
  destruct (Z.ltb_spec j 4).
  - assert (Hc : j = 0 \/ j = 1 \/ j = 2 \/ j = 3) by lia.
    destruct Hc as [-> | [-> | [-> | ->]]]; reflexivity.
  - apply Z.bits_above_log2; cbn; lia.
Qed.

Lemma nibble_uuid4_version (r : Z) : nibble (uuid4_int r) 19 = 4.
Proof.
  apply Z.bits_inj'. intros j Hj. rewrite nibble_bits by lia.
  rewrite uuid4_int_bits_high by lia.
  destruct (Z.ltb_spec j 4).
  - replace ((76 <=? 4 * Z.of_nat 19 + j) && (4 * Z.of_nat 19 + j <? 80)) with true
      by (symmetry; apply andb_true_iff; split; [apply Z.leb_le | apply Z.ltb_lt]; lia).
    rewrite andb_true_r. f_equal. lia.
  - rewrite andb_false_r. symmetry. apply Z.bits_above_log2; cbn; lia.
Qed.

Lemma uuid4_int_top (h : Z) :
  nibble h 3 = 4 -> Z.shiftr (uuid4_int (Z.shiftl h 64)) 64 = h.
Proof.
  intros Hv. apply Z.bits_inj'. intros j Hj.
  rewrite Z.shiftr_spec, uuid4_int_bits_high, Z.shiftl_spec by lia.
  replace (j + 64 - 64) with j by lia.
  destruct (Z.leb_spec 76 (j + 64)); cbn [andb]; [|reflexivity].
  destruct (Z.ltb_spec (j + 64) 80); [|reflexivity].
  rewrite <- Hv, nibble_bits by lia.
  replace (j + 64 - 76 <? 4) with true by (symmetry; apply Z.ltb_lt; lia).
  rewrite andb_true_r. f_equal. lia.
Qed.

Lemma nibble_range (n : Z) (k : nat) : 0 <= nibble n k < 16.
Proof.
  unfold nibble. change 15 with (Z.ones 4). rewrite Z.land_ones by lia.
  apply Z.mod_pos_bound. reflexivity.
Qed.

Lemma nibble_shiftr (n : Z) (m k : nat) :
  nibble (Z.shiftr n (4 * Z.of_nat m)) k = nibble n (k + m).
Proof.
  unfold nibble. rewrite Z.shiftr_shiftr by lia. do 2 f_equal. lia.
Qed.

Lemma hex_digits_firstn (m : nat) (n : Z) : forall w,
  firstn w (hex_digits (w + m) n) = hex_digits w (Z.shiftr n (4 * Z.of_nat m)).
Proof.
  induction w as [|w IH]; [reflexivity|].
  cbn [Nat.add hex_digits firstn]. now rewrite IH, nibble_shiftr.
Qed.

Lemma substring_firstn (l : list ascii) : forall n,
  substring 0 n (string_of_list_ascii l) = string_of_list_ascii (firstn n l).
Proof.
  induction l as [|c l IH]; intros [|n]; cbn; try reflexivity.
  now rewrite IH.
Qed.

Lemma hex_digits_length (n : Z) : forall w, List.length (hex_digits w n) = w.
Proof. induction w as [|w IH]; cbn; congruence. Qed.

Lemma hex_digit_cases (d : Z) :
  0 <= d < 16 ->
  d = 0 \/ d = 1 \/ d = 2 \/ d = 3 \/ d = 4 \/ d = 5 \/ d = 6 \/ d = 7 \/
  d = 8 \/ d = 9 \/ d = 10 \/ d = 11 \/ d = 12 \/ d = 13 \/ d = 14 \/ d = 15.
Proof. lia. Qed.

Lemma hex_digit_is_hex (d : Z) : 0 <= d < 16 -> is_hex (hex_digit d).
Proof.
  intros Hd. apply hex_digit_cases in Hd.
  repeat (destruct Hd as [-> | Hd]; [cbv; tauto|]). subst. cbv. tauto.
Qed.

Lemma is_hex_digit (c : ascii) :
  is_hex c -> exists d, 0 <= d < 16 /\ hex_digit d = c.
Proof.
  unfold is_hex. cbn [list_ascii_of_string In].
  intros [<-|[<-|[<-|[<-|[<-|[<-|[<-|[<-|[<-|[<-|[<-|[<-|[<-|[<-|[<-|[<-|[]]]]]]]]]]]]]]]]];
    [exists 0|exists 1|exists 2|exists 3|exists 4|exists 5|exists 6|exists 7
    |exists 8|exists 9|exists 10|exists 11|exists 12|exists 13|exists 14
    |exists 15]; (split; [lia|reflexivity]).
Qed.

Lemma hex_digit_four (d : Z) : 0 <= d < 16 -> hex_digit d = "4"%char -> d = 4.
Proof.
  intros Hd. apply hex_digit_cases in Hd.
  repeat (destruct Hd as [-> | Hd]; [cbv; congruence|]). subst. cbv. congruence.
Qed.

Lemma nibble_div (n : Z) (k : nat) :
  nibble n k = (n / 16 ^ Z.of_nat k) mod 16.
Proof.
  unfold nibble. change 15 with (Z.ones 4).
  rewrite Z.land_ones, Z.shiftr_div_pow2 by lia.
  rewrite Z.pow_mul_r by lia. reflexivity.
Qed.

(** Adding a multiple of [16^w] leaves the [w] low digits alone. *)
Lemma nibble_add_high (d h : Z) (w k : nat) :
  (k < w)%nat -> nibble (d * 16 ^ Z.of_nat w + h) k = nibble h k.
Proof.
  intros Hk. rewrite !nibble_div.
  replace (Z.of_nat w) with (Z.of_nat (w - S k) + 1 + Z.of_nat k) by lia.
  rewrite !Z.pow_add_r by lia. change (16 ^ 1) with 16.
  rewrite !Z.mul_assoc, Z.div_add_l by (apply Z.pow_nonzero; lia).
  rewrite Z.add_comm, Z.mod_add by lia. reflexivity.
Qed.

Lemma nibble_top (d h : Z) (w : nat) :
  0 <= d < 16 -> 0 <= h < 16 ^ Z.of_nat w ->
  nibble (d * 16 ^ Z.of_nat w + h) w = d.
Proof.
  intros Hd Hh. rewrite nibble_div.
  rewrite Z.div_add_l by (apply Z.pow_nonzero; lia).
  rewrite (Z.div_small h) by lia. rewrite Z.add_0_r. now apply Z.mod_small.
Qed.

Lemma hex_digits_add_high (d h : Z) (w : nat) : forall k,
  (k <= w)%nat -> hex_digits k (d * 16 ^ Z.of_nat w + h) = hex_digits k h.
Proof.
  induction k as [|k IH]; intros Hk; [reflexivity|].
  cbn [hex_digits]. rewrite nibble_add_high by lia. now rewrite IH by lia.
Qed.

(** Every string of hexadecimal digits is the print of a number. *)
Lemma hex_digits_onto (l : list ascii) :
  Forall is_hex l ->
  exists h, 0 <= h < 16 ^ Z.of_nat (List.length l) /\
            hex_digits (List.length l) h = l.
Proof.
  induction 1 as [|c l Hc _ (h & Hh & IH)].
  - exists 0. split; [cbn; lia | reflexivity].
  - destruct (is_hex_digit c Hc) as (d & Hd & <-).
    exists (d * 16 ^ Z.of_nat (List.length l) + h). split.
    + cbn [List.length]. rewrite Nat2Z.inj_succ, Z.pow_succ_r by lia. nia.
    + cbn [List.length hex_digits].
      rewrite nibble_top by assumption.
      now rewrite hex_digits_add_high, IH by lia.
Qed.

Lemma new_open_id_eq (r : Z) :
  new_open_id r =
    "local_" ++ string_of_list_ascii (hex_digits 16 (Z.shiftr (uuid4_int r) 64)).
Proof.
  unfold new_open_id, uuid_hex.
  now rewrite substring_firstn, (hex_digits_firstn 16 _ 16).
Qed.

Lemma hex_digits_is_hex (n : Z) : forall w, Forall is_hex (hex_digits w n).
Proof.
  induction w as [|w IH]; constructor; [|exact IH].
  apply hex_digit_is_hex, nibble_range.
Qed.

Lemma string_of_list_length (l : list ascii) :
  String.length (string_of_list_ascii l) = List.length l.
Proof. induction l as [|c l IH]; cbn; congruence. Qed.

Lemma new_open_id_has_shape (r : Z) : open_id_shape (new_open_id r).
Proof.
  exists (string_of_list_ascii (hex_digits 16 (Z.shiftr (uuid4_int r) 64))).
  split; [apply new_open_id_eq|]. split; [|split].
  - now rewrite string_of_list_length, hex_digits_length.
  - rewrite list_ascii_of_string_of_list_ascii. apply hex_digits_is_hex.
  - change (Some (hex_digit (nibble (Z.shiftr (uuid4_int r) (4 * Z.of_nat 16)) 3))
            = Some "4"%char).
    now rewrite nibble_shiftr, nibble_uuid4_version.
Qed.

Lemma open_id_shape_generated (o : string) :
  open_id_shape o -> exists r, 0 <= r < 2 ^ 128 /\ new_open_id r = o.
Proof.
  intros (s & -> & Hlen & Hhex & H13).
  destruct (hex_digits_onto _ Hhex) as (h & Hh & Hdigits).
  rewrite <- (string_of_list_ascii_of_string s) in Hlen, H13 |- *.
  rewrite string_of_list_length in Hlen. rewrite Hlen in Hh, Hdigits.
  rewrite <- Hdigits in H13 |- *.
  assert (Hv : nibble h 3 = 4).
  { apply hex_digit_four; [apply nibble_range|].
    change (Some (hex_digit (nibble h 3)) = Some "4"%char) in H13.
    congruence. }
  exists (Z.shiftl h 64). split.
  - rewrite Z.shiftl_mul_pow2 by lia.
    change (16 ^ Z.of_nat 16) with (2 ^ 64) in Hh.
    change (2 ^ 128) with (2 ^ 64 * 2 ^ 64). nia.
  - now rewrite new_open_id_eq, uuid4_int_top.
Qed.

(** * Properties *)

Section Properties.
Context {P : Platform}.
Variable settings : Settings.

(** ** Unfolding the handlers *)

Lemma register_taken (b : RegisterRequest.t) r salt now db u :
  first_by_email (RegisterRequest.email b) db = Some u ->
  register settings b r salt now db = (Raised ConflictError, db).
Proof.
  intros Hfound. unfold register, bind, query_first_by_email.
  rewrite Hfound. reflexivity.
Qed.

Lemma register_role_in_enum (c : bool) :
  in_enum (if c then "admin" else "user") = true.
Proof. destruct c; reflexivity. Qed.

Lemma register_hash_throws (b : RegisterRequest.t) r salt now db error :
  first_by_email (RegisterRequest.email b) db = None ->
  pwd_hash (RegisterRequest.password b) salt = Throws error ->
  register settings b r salt now db = (Raised (LibraryError error), db).
Proof.
  intros Hnone Hhash. unfold register, bind, query_first_by_email.
  rewrite Hnone, Hhash. reflexivity.
Qed.

Lemma register_collision (b : RegisterRequest.t) r salt now db h :
  first_by_email (RegisterRequest.email b) db = None ->
  pwd_hash (RegisterRequest.password b) salt = Value h ->
  openId_used (new_open_id r) db = true ->
  register settings b r salt now db =
    (Raised (IntegrityError "openId UNIQUE"), db).
Proof.
  intros Hnone Hhash Hused. unfold register, bind, query_first_by_email.
  rewrite Hnone, Hhash. unfold call, ret, add_commit_refresh.
  cbn [User.p_openId]. rewrite Hused. reflexivity.
Qed.

Lemma register_inserts (b : RegisterRequest.t) r salt now db h :
  first_by_email (RegisterRequest.email b) db = None ->
  pwd_hash (RegisterRequest.password b) salt = Value h ->
  openId_used (new_open_id r) db = false ->
  exists row,
    register settings b r salt now db =
      (Returned (succeeded "Registration successful." row), (db ++ [row])%list) /\
    User.id row = max_id db + 1 /\
    User.openId row = new_open_id r /\
    User.name row = RegisterRequest.name b /\
    User.email row = Some (RegisterRequest.email b) /\
    User.passwordHash row = Some h /\
    User.loginMethod row = Some "password" /\
    User.role row =
      (if negb (OWNER_EMAIL settings =? "")%string
          && (str_lower (RegisterRequest.email b)
              =? str_lower (OWNER_EMAIL settings))%string
       then "admin" else "user") /\
    User.createdAt row = now /\ User.updatedAt row = now /\
    User.lastSignedIn row = now.
Proof.
  intros Hnone Hhash Hfresh. unfold register, bind, query_first_by_email.
  rewrite Hnone, Hhash. unfold call, ret, add_commit_refresh.
  cbn [User.p_openId User.p_role]. rewrite Hfresh, register_role_in_enum.
  eexists. split; [reflexivity|]. cbn. repeat split; reflexivity.
Qed.

(** [register] ends in one of four ways, decided by the lookup, by the
    hashing of the password and by whether the fresh identifier is already
    in the table. *)
Lemma register_cases (b : RegisterRequest.t) r salt now db :
  (exists u, first_by_email (RegisterRequest.email b) db = Some u /\
             register settings b r salt now db = (Raised ConflictError, db)) \/
  (exists error,
     first_by_email (RegisterRequest.email b) db = None /\
     pwd_hash (RegisterRequest.password b) salt = Throws error /\
     register settings b r salt now db = (Raised (LibraryError error), db)) \/
  (exists h,
     first_by_email (RegisterRequest.email b) db = None /\
     pwd_hash (RegisterRequest.password b) salt = Value h /\
     openId_used (new_open_id r) db = true /\
     register settings b r salt now db =
       (Raised (IntegrityError "openId UNIQUE"), db)) \/
  (exists h,
     first_by_email (RegisterRequest.email b) db = None /\
     pwd_hash (RegisterRequest.password b) salt = Value h /\
     openId_used (new_open_id r) db = false /\
     exists row,
       register settings b r salt now db =
         (Returned (succeeded "Registration successful." row), (db ++ [row])%list) /\
       User.role row =
         (if negb (OWNER_EMAIL settings =? "")%string
             && (str_lower (RegisterRequest.email b)
                 =? str_lower (OWNER_EMAIL settings))%string
          then "admin" else "user")).
Proof.
  destruct (first_by_email (RegisterRequest.email b) db) as [u|] eqn:Hq.
  - left. exists u. split; [reflexivity|]. now apply register_taken with u.
  - right.
    destruct (pwd_hash (RegisterRequest.password b) salt) as [h|error] eqn:Hh.
    + right. destruct (openId_used (new_open_id r) db) eqn:Hu.
      * left. exists h. repeat split. now apply register_collision with h.
      * right. exists h. repeat split.
        destruct (register_inserts b r salt now db h Hq Hh Hu)
          as (row & Hr & Hrest).
        exists row. split; [exact Hr|]. tauto.
    + left. exists error. repeat split. now apply register_hash_throws.
Qed.

(** A [register] that returns has hashed the password and appended the row
    it returns. *)
Lemma register_returned (b : RegisterRequest.t) r salt now db resp db' :
  register settings b r salt now db = (Returned resp, db') ->
  exists h row,
    first_by_email (RegisterRequest.email b) db = None /\
    pwd_hash (RegisterRequest.password b) salt = Value h /\
    openId_used (new_open_id r) db = false /\
    resp = succeeded "Registration successful." row /\
    db' = (db ++ [row])%list /\
    User.openId row = new_open_id r /\
    User.email row = Some (RegisterRequest.email b) /\
    User.passwordHash row = Some h /\
    User.role row =
      (if negb (OWNER_EMAIL settings =? "")%string
          && (str_lower (RegisterRequest.email b)
              =? str_lower (OWNER_EMAIL settings))%string
       then "admin" else "user").
Proof.
  intros Hreg.
  destruct (register_cases b r salt now db)
    as [(u & _ & H) | [(error & _ & _ & H) | [(h & _ & _ & _ & H)
       | (h & Hq & Hh & Hu & _)]]];
    try (rewrite H in Hreg; discriminate).
  destruct (register_inserts b r salt now db h Hq Hh Hu)
    as (row & Hr & _ & Hid & _ & Hemail & Hhash & _ & Hrole & _).
  rewrite Hr in Hreg. injection Hreg as <- <-.
  exists h, row. repeat split; auto.
Qed.

Lemma owner_matches_spec (e : string) :
  owner_matches settings e <->
  negb (OWNER_EMAIL settings =? "")%string
    && (str_lower e =? str_lower (OWNER_EMAIL settings))%string = true.
Proof.
  unfold owner_matches. rewrite andb_true_iff, negb_true_iff.
  rewrite String.eqb_neq, String.eqb_eq. tauto.
Qed.

Lemma login_eq (b : LoginRequest.t) db :
  login b db =
    (match credential_check (LoginRequest.email b) (LoginRequest.password b) db with
     | Verified u => Returned (succeeded "Login successful." u)
     | CheckThrew error => Raised (LibraryError error)
     | NoUsableRecord | Mismatch => Raised AuthError
     end, db).
Proof.
  unfold login, bind, query_first_by_email, credential_check, with_password.
  destruct (first_by_email (LoginRequest.email b) db) as [u|]; [|reflexivity].
  unfold truthy. destruct (User.passwordHash u) as [h|]; [|reflexivity].
  destruct (h =? "")%string; [reflexivity|]. cbn [negb].
  destruct (pwd_verify (LoginRequest.password b) h) as [[|]|error];
    reflexivity.
Qed.

Lemma verify_password_eq (b : VerifyPasswordRequest.t) db :
  verify_password b db =
    (match credential_check (VerifyPasswordRequest.email b)
             (VerifyPasswordRequest.password b) db with
     | Verified u => Returned (succeeded "Password verified." u)
     | NoUsableRecord => Returned (soft_failure reason_A)
     | Mismatch => Returned (soft_failure reason_B)
     | CheckThrew error => Raised (LibraryError error)
     end, db).
Proof.
  unfold verify_password, bind, query_first_by_email, credential_check,
    with_password.
  destruct (first_by_email (VerifyPasswordRequest.email b) db) as [u|];
    [|reflexivity].
  unfold truthy. destruct (User.passwordHash u) as [h|]; [|reflexivity].
  destruct (h =? "")%string; [reflexivity|]. cbn [negb].
  destruct (pwd_verify (VerifyPasswordRequest.password b) h) as [[|]|error];
    reflexivity.
Qed.

Lemma check_unknown e pw db :
  unknown_or_passwordless e db -> credential_check e pw db = NoUsableRecord.
Proof.
  unfold credential_check.
  intros [Hnone | (u & Hu & [Hh | Hh])]; rewrite ?Hnone, ?Hu, ?Hh; reflexivity.
Qed.

Lemma check_verdict e pw db u v :
  password_checked e pw db u v ->
  credential_check e pw db = if v then Verified u else Mismatch.
Proof.
  unfold credential_check. intros (h & Hu & Hh & Hne & Hv).
  rewrite Hu, Hh, Hv. apply String.eqb_neq in Hne. rewrite Hne.
  now destruct v.
Qed.

Lemma check_threw e pw db error :
  verification_throws e pw db error ->
  credential_check e pw db = CheckThrew error.
Proof.
  unfold credential_check. intros (u & h & Hu & Hh & Hne & Hv).
  rewrite Hu, Hh, Hv. apply String.eqb_neq in Hne. now rewrite Hne.
Qed.

(** What each verdict of the check says about the table and the library. *)
Lemma check_shape e pw db :
  match credential_check e pw db with
  | NoUsableRecord => unknown_or_passwordless e db
  | Mismatch => exists u, password_checked e pw db u false
  | Verified u => password_checked e pw db u true
  | CheckThrew error => verification_throws e pw db error
  end.
Proof.
  unfold credential_check, unknown_or_passwordless, password_checked,
    verification_throws.
  destruct (first_by_email e db) as [u|]; [|now left].
  destruct (User.passwordHash u) as [h|] eqn:Hh;
    [|right; exists u; auto].
  destruct (String.eqb_spec h "") as [->|Hne];
    [right; exists u; auto|].
  destruct (pwd_verify pw h) as [[|]|error] eqn:Hv.
  - exists h; auto.
  - exists u, h; auto.
  - exists u, h; auto.
Qed.

(** The four conditions cover every case. *)
Lemma check_exhaustive e pw db :
  unknown_or_passwordless e db \/
  (exists u, password_checked e pw db u false) \/
  (exists u, password_checked e pw db u true) \/
  (exists error, verification_throws e pw db error).
Proof.
  pose proof (check_shape e pw db) as H.
  destruct (credential_check e pw db) as [| |u|error]; eauto 6.
Qed.

Lemma check_unknown_iff e pw db :
  credential_check e pw db = NoUsableRecord <-> unknown_or_passwordless e db.
Proof.
  split; [|apply check_unknown].
  intros H. pose proof (check_shape e pw db) as Hs. now rewrite H in Hs.
Qed.

Lemma check_mismatch_iff e pw db :
  credential_check e pw db = Mismatch <->
  exists u, password_checked e pw db u false.
Proof.
  split.
  - intros H. pose proof (check_shape e pw db) as Hs. now rewrite H in Hs.
  - intros (u & H). apply (check_verdict e pw db u false H).
Qed.

Lemma check_verified_iff e pw db u :
  credential_check e pw db = Verified u <-> password_checked e pw db u true.
Proof.
  split.
  - intros H. pose proof (check_shape e pw db) as Hs. now rewrite H in Hs.
  - apply (check_verdict e pw db u true).
Qed.

Lemma check_threw_iff e pw db error :
  credential_check e pw db = CheckThrew error <->
  verification_throws e pw db error.
Proof.
  split; [|apply check_threw].
  intros H. pose proof (check_shape e pw db) as Hs. now rewrite H in Hs.
Qed.

(** What a request does to the table: nothing, or one row appended, and
    then by a successful [register], with role admin or user. *)
Lemma serve_store (q : request) db :
  snd (serve settings q db) = db \/
  exists raw r salt now b row,
    q = POST_register raw r salt now /\
    validate_RegisterRequest raw = Some b /\
    first_by_email (RegisterRequest.email b) db = None /\
    snd (serve settings q db) = (db ++ [row])%list /\
    (User.role row = "admin" \/ User.role row = "user").
Proof.
  destruct q as [raw r salt now | raw | raw]; cbn [serve]; unfold route.
  - destruct (validate_RegisterRequest raw) as [b|] eqn:Hv; [|now left].
    destruct (register_cases b r salt now db)
      as [(u & _ & ->) | [(error & _ & _ & ->) | [(h & _ & _ & _ & ->)
         | (h & Hq & _ & _ & row & -> & Hrole)]]];
      [now left | now left | now left |].
    right. exists raw, r, salt, now, b, row. repeat split; auto.
    rewrite Hrole.
    destruct (negb (OWNER_EMAIL settings =? "")%string
              && (str_lower (RegisterRequest.email b)
                  =? str_lower (OWNER_EMAIL settings))%string); auto.
  - left. destruct (validate_LoginRequest raw) as [b|]; [|reflexivity].
    rewrite login_eq. reflexivity.
  - left. unfold validate_VerifyPasswordRequest.
    rewrite verify_password_eq. reflexivity.
Qed.

Lemma serve_all_rows (qs : list request) : forall db u,
  In u (serve_all settings qs db) ->
  In u db \/ User.role u = "admin" \/ User.role u = "user".
Proof.
  induction qs as [|q qs IH]; intros db u Hin; cbn [serve_all] in Hin.
  - now left.
  - apply IH in Hin. destruct Hin as [Hin | Hrole]; [|now right].
    destruct (serve_store q db)
      as [Heq | (raw & r & salt & now & b & row & _ & _ & _ & Heq & Hrole)];
      rewrite Heq in Hin; [now left|].
    apply in_app_or in Hin. destruct Hin as [Hin | [<- | []]]; auto.
Qed.

Lemma login_requests_keep_store (raws : list RawBody) : forall db,
  serve_all settings (map POST_login raws) db = db.
Proof.
  induction raws as [|raw raws IH]; intros db; cbn [map serve_all];
    [reflexivity|].
  destruct (serve_store (POST_login raw) db)
    as [-> | (raw' & r & salt & now & b & row & Hq & _)];
    [apply IH | discriminate].
Qed.

(** ** The claims *)

(** C1: a [register] call that creates a user gives it the role admin when
    an owner email is configured (non-empty) and the registering email
    equals it after lower-casing both, and the role user in every other
    case, whatever the table held before the call. *)
Theorem register_role_by_owner_email (b : RegisterRequest.t) r salt now db
    resp db' :
  register settings b r salt now db = (Returned resp, db') ->
  exists row,
    db' = (db ++ [row])%list /\
    AuthResponse.user resp = Some (UserResponse.model_validate row) /\
    (owner_matches settings (RegisterRequest.email b) ->
     User.role row = "admin") /\
    (~ owner_matches settings (RegisterRequest.email b) ->
     User.role row = "user").
Proof.
  intros Hreg.
  destruct (register_returned b r salt now db resp db' Hreg)
    as (h & row & _ & _ & _ & -> & -> & _ & _ & _ & Hrole).
  exists row. repeat split.
  - intros Hm. apply owner_matches_spec in Hm. now rewrite Hrole, Hm.
  - intros Hm. rewrite Hrole.
    destruct (negb (OWNER_EMAIL settings =? "")%string
              && (str_lower (RegisterRequest.email b)
                  =? str_lower (OWNER_EMAIL settings))%string) eqn:Hc;
      [|reflexivity].
    exfalso. apply Hm. now apply owner_matches_spec.
Qed.




(** C5: on the same email, password and table, [login] and
    [verify_password] are two readings of one and the same credential
    check: [login] returns exactly when [verify_password] answers
    success=true, then with the same user; [login] raises its error exactly
    when [verify_password] answers one of its two soft failures, reason A
    for an unknown email or a row without hash, reason B for a mismatch; and
    when the library's verification throws, both raise its exception. *)
Theorem login_verify_password_same_checks (e pw : string) db :
  login {| LoginRequest.email := e; LoginRequest.password := pw |} db =
    (match credential_check e pw db with
     | Verified u => Returned (succeeded "Login successful." u)
     | NoUsableRecord | Mismatch => Raised AuthError
     | CheckThrew error => Raised (LibraryError error)
     end, db) /\
  verify_password
    {| VerifyPasswordRequest.email := e; VerifyPasswordRequest.password := pw |}
    db =
    (match credential_check e pw db with
     | Verified u => Returned (succeeded "Password verified." u)
     | NoUsableRecord => Returned (soft_failure reason_A)
     | Mismatch => Returned (soft_failure reason_B)
     | CheckThrew error => Raised (LibraryError error)
     end, db) /\
  ((exists resp,
      fst (login {| LoginRequest.email := e; LoginRequest.password := pw |} db)
      = Returned resp) <->
   (exists resp,
      fst (verify_password
             {| VerifyPasswordRequest.email := e;
                VerifyPasswordRequest.password := pw |} db) = Returned resp /\
      AuthResponse.success resp = true)) /\
  (credential_check e pw db = NoUsableRecord <-> unknown_or_passwordless e db) /\
  (credential_check e pw db = Mismatch <->
   exists u, password_checked e pw db u false) /\
  (forall u, credential_check e pw db = Verified u <->
             password_checked e pw db u true) /\
  (forall error, credential_check e pw db = CheckThrew error <->
                 verification_throws e pw db error).
Proof.
  rewrite login_eq, verify_password_eq. cbn [LoginRequest.email
    LoginRequest.password VerifyPasswordRequest.email
    VerifyPasswordRequest.password fst].
  split; [reflexivity|]. split; [reflexivity|].
  split; [|split; [|split; [|split]]].
  - destruct (credential_check e pw db) as [| |u|error]; split;
      try (intros (resp & H); discriminate);
      try (intros (resp & [= <-] & H); discriminate).
    + intros _. eexists. split; reflexivity.
    + intros _. eexists. reflexivity.
  - apply check_unknown_iff.
  - apply check_mismatch_iff.
  - intros u. apply check_verified_iff.
  - intros error. apply check_threw_iff.
Qed.

(** C6: [login] never changes the table.  Whatever it answers, the table
    afterwards is the table before, so no column of any row, the
    [lastSignedIn] column included, is touched; when it succeeds the user
    it returns is the row the lookup found, as stored; and any number of
    login calls or login requests in a row, failed or not, leaves the
    table exactly as it was. *)
Theorem login_never_mutates (b : LoginRequest.t) db :
  snd (login b db) = db /\
  map User.lastSignedIn (snd (login b db)) = map User.lastSignedIn db /\
  (forall resp, fst (login b db) = Returned resp ->
     exists u, first_by_email (LoginRequest.email b) db = Some u /\ In u db /\
               resp = succeeded "Login successful." u) /\
  (forall n, Nat.iter n (fun d => snd (login b d)) db = db) /\
  (forall raws, serve_all settings (map POST_login raws) db = db).
Proof.
  assert (Hsnd : forall d, snd (login b d) = d)
    by (intros d; now rewrite login_eq).
  split; [apply Hsnd|]. split; [now rewrite Hsnd|]. split; [|split].
  - intros resp. rewrite login_eq. cbn [fst]. intros Hr.
    pose proof (check_shape (LoginRequest.email b) (LoginRequest.password b) db)
      as Hc.
    destruct (credential_check (LoginRequest.email b)
                (LoginRequest.password b) db) as [| |u|error]; try discriminate.
    injection Hr as <-. destruct Hc as (h & Hu & _).
    exists u. repeat split; [exact Hu|].
    unfold first_by_email in Hu. now apply find_some in Hu.
  - induction n as [|n IH]; [reflexivity|].
    rewrite Nat.iter_succ, IH. apply Hsnd.
  - intros raws. apply login_requests_keep_store.
Qed.

(** C8: starting from a table whose roles are all among the seven values
    of the column, every sequence of requests leaves a table whose roles
    are all among the seven; every row the requests added has the role
    admin or user; and the column default, user, is one of the seven. *)
Theorem roles_stay_in_enum (qs : list request) db :
  roles_ok db ->
  roles_ok (serve_all settings qs db) /\
  (forall u, In u (serve_all settings qs db) ->
     In u db \/ User.role u = "admin" \/ User.role u = "user") /\
  In User.role_default User.role_values.
Proof.
  intros Hok. split; [|split].
  - apply Forall_forall. intros u Hin.
    destruct (serve_all_rows qs db u Hin) as [Hold | [-> | ->]].
    + revert Hold. clear Hin. revert u. now apply Forall_forall.
    + cbn. auto.
    + cbn. auto.
  - apply serve_all_rows.
  - cbn. auto.
Qed.

(** C9: a register request whose password is shorter than 8 or longer
    than 128 characters fails validation: the handler is not called, the
    answer is the validation rejection whatever the table holds, and the
    table is unchanged. *)
Theorem register_rejects_password_length (raw : RawBody) r salt now db :
  len (raw_password raw) < 8 \/ 128 < len (raw_password raw) ->
  validate_RegisterRequest raw = None /\
  serve settings (POST_register raw r salt now) db = (ValidationError422, db).
Proof.
  intros Hlen.
  assert (Hv : validate_RegisterRequest raw = None).
  { unfold validate_RegisterRequest.
    destruct (validate_email (raw_email raw)); [|reflexivity].
    destruct (Z.leb_spec 8 (len (raw_password raw)));
      destruct (Z.leb_spec (len (raw_password raw)) 128);
      cbn [andb]; try reflexivity; lia. }
  split; [exact Hv|]. cbn [serve]. unfold route. now rewrite Hv.
Qed.


(** C7 (amended): the identifier of every user [register] creates is
    [local_] followed by exactly sixteen lower-case hexadecimal digits, the
    first sixteen of a version-4 UUID's hex form; the thirteenth of them is
    always the version digit 4, and every string of that shape is the
    identifier of some 128-bit random input, so the fifteen other digits
    are free: 60 random bits. *)
Theorem registered_open_id_shape :
  (forall (b : RegisterRequest.t) r salt now db resp db',
     register settings b r salt now db = (Returned resp, db') ->
     exists row, db' = (db ++ [row])%list /\
                 User.openId row = new_open_id r /\
                 open_id_shape (User.openId row)) /\
  (forall o, open_id_shape o ->
     exists r, 0 <= r < 2 ^ 128 /\ new_open_id r = o).
Proof.
  split; [|apply open_id_shape_generated].
  intros b r salt now db resp db' Hreg.
  destruct (register_returned b r salt now db resp db' Hreg)
    as (h & row & _ & _ & _ & _ & -> & Hid & _).
  exists row. repeat split; [exact Hid|].
  rewrite Hid. apply new_open_id_has_shape.
Qed.
End Properties.

(** * The claims on the scenario of the specification *)

Lemma register_role_by_owner_email_witness :
  exists resp db',
    register (P := toy_platform) owner_settings
      (register_request "Owner@X.com" "longpassword1") 0 "s1" 100 []
    = (Returned resp, db') /\
    exists row,
      db' = ([] ++ [row])%list /\
      AuthResponse.user resp = Some (UserResponse.model_validate row) /\
      User.role row = "admin".
Proof.
  eexists _, _.
  assert (H : register (P := toy_platform) owner_settings
                (register_request "Owner@X.com" "longpassword1") 0 "s1" 100 []
              = (Returned _, _)) by (cbv; reflexivity).
  split; [exact H|].
  destruct (register_role_by_owner_email (P := toy_platform) owner_settings
              _ _ _ _ _ _ _ H) as (row & Hdb & Huser & Hadmin & _).
  exists row. repeat split; [exact Hdb | exact Huser |].
  apply Hadmin. split; [discriminate | reflexivity].
Defined.







Lemma login_never_mutates_witness :
  login (P := toy_platform) (login_request "a@x.com" "longpassword1")
    scenario_db
  = (Returned
       (succeeded "Login successful."
          {| User.id := 2; User.openId := "local_0000000000004001";
             User.name := None; User.email := Some "a@x.com";
             User.passwordHash := Some "$toy$s2$longpassword1";
             User.loginMethod := Some "password"; User.role := "user";
             User.createdAt := 200; User.updatedAt := 200;
             User.lastSignedIn := 200 |}),
     scenario_db) /\
  serve_all (P := toy_platform) owner_settings
    (map POST_login [body "a@x.com" "wrong"; body "ghost@x.com" "x";
                     body "a@x.com" "wrong"])
    scenario_db
  = scenario_db.
Proof.
  destruct (login_never_mutates (P := toy_platform) owner_settings
              (login_request "a@x.com" "longpassword1") scenario_db)
    as (Hsnd & _ & Hret & _ & Hall).
  split; [|apply Hall].
  destruct (Hret _ eq_refl) as (u & Hu & _ & Hresp).
  injection Hu as <-.
  apply injective_projections; [cbn [fst] | exact Hsnd].
  transitivity (Returned (A := AuthResponse.t)
                  (succeeded "Login successful."
                     {| User.id := 2; User.openId := "local_0000000000004001";
                        User.name := None; User.email := Some "a@x.com";
                        User.passwordHash := Some "$toy$s2$longpassword1";
                        User.loginMethod := Some "password";
                        User.role := "user"; User.createdAt := 200;
                        User.updatedAt := 200; User.lastSignedIn := 200 |}));
    reflexivity.
Defined.

(** C7, as stated, fails: the thirteenth digit is 4 when every random bit is
    0 and when every random bit is 1, and no random input at all yields the
    identifier made of [local_] and sixteen zeros. *)
Lemma open_id_thirteenth_digit_fixed :
  new_open_id 0 = "local_0000000000004000" /\
  new_open_id (2 ^ 128 - 1) = "local_ffffffffffff4fff" /\
  ~ (exists r, new_open_id r = "local_0000000000000000").
Proof.
  split; [reflexivity|]. split; [reflexivity|].
  intros (r & Hr).
  destruct (new_open_id_has_shape r) as (s & Hs & _ & _ & H13).
  rewrite Hr in Hs. injection Hs as <-. discriminate H13.
Qed.

Lemma registered_open_id_shape_witness :
  (exists row,
     snd (register (P := toy_platform) owner_settings
            (register_request "owner@x.com" "longpassword1") 0 "s1" 100 [])
     = [row] /\
     User.openId row = "local_0000000000004000" /\
     open_id_shape (User.openId row)) /\
  exists r, 0 <= r < 2 ^ 128 /\ new_open_id r = "local_0123456789ab4def".
Proof.
  destruct (registered_open_id_shape (P := toy_platform) owner_settings)
    as (Hshape & Honto).
  split.
  - destruct (Hshape (register_request "owner@x.com" "longpassword1")
                0 "s1" 100 [] _ _ eq_refl) as (row & Hdb & Hid & Hrow).
    exists row. repeat split; [exact Hdb | exact Hid | exact Hrow].
  - apply Honto. exists "0123456789ab4def".
    split; [reflexivity|]. split; [reflexivity|]. split; [|reflexivity].
    cbn [list_ascii_of_string]. repeat (constructor; [cbv; tauto|]).
    constructor.
Defined.

Lemma roles_stay_in_enum_witness : roles_ok scenario_db.
Proof.
  exact (proj1 (roles_stay_in_enum (P := toy_platform) owner_settings
                  [POST_register (body "owner@x.com" "longpassword1") 0 "s1" 100;
                   POST_register (body "a@x.com" "longpassword1") (2 ^ 64) "s2" 200]
                  [] (Forall_nil _))).
Defined.

Lemma register_rejects_password_length_witness :
  serve (P := toy_platform) owner_settings
    (POST_register (body "b@x.com" "short") 9 "s3" 300) scenario_db
  = (ValidationError422, scenario_db) /\
  serve (P := toy_platform) owner_settings
    (POST_register (body "b@x.com" long_password) 9 "s3" 300) scenario_db
  = (ValidationError422, scenario_db).
Proof.
  split.
  - apply (register_rejects_password_length (P := toy_platform)).
    left. reflexivity.
  - apply (register_rejects_password_length (P := toy_platform)).
    right. reflexivity.
Defined.



(** * The scenario of the specification, evaluated *)

Example scenario_owner_is_admin :
  map User.role scenario_db = ["admin"; "user"] /\
  map User.email scenario_db = [Some "owner@x.com"; Some "a@x.com"].
Proof. split; reflexivity. Qed.

Example scenario_register_again :
  serve (P := toy_platform) owner_settings
    (POST_register (body "a@x.com" "other12345") (2 ^ 66) "s3" 300) scenario_db
  = (HttpError 409 "A user with this email already exists.", scenario_db).
Proof. reflexivity. Qed.

Example scenario_login :
  fst (serve (P := toy_platform) owner_settings
         (POST_login (body "a@x.com" "longpassword1")) scenario_db)
  = Json200
      {| AuthResponse.success := true;
         AuthResponse.user :=
           Some {| UserResponse.id := 2;
                   UserResponse.openId := "local_0000000000004001";
                   UserResponse.name := None;
                   UserResponse.email := Some "a@x.com";
                   UserResponse.role := "user" |};
         AuthResponse.message := Some "Login successful." |} /\
  fst (serve (P := toy_platform) owner_settings
         (POST_login (body "a@x.com" "wrong")) scenario_db)
  = HttpError 401 "Invalid email or password.".
Proof. split; reflexivity. Qed.

Example scenario_verify_password :
  fst (serve (P := toy_platform) owner_settings
         (POST_verify_password (body "a@x.com" "wrong")) scenario_db)
  = Json200 (soft_failure "Password does not match.") /\
  fst (serve (P := toy_platform) owner_settings
         (POST_verify_password (body "ghost@x.com" "x")) scenario_db)
  = Json200 (soft_failure "User not found or no password set.").
Proof. split; reflexivity. Qed.

(** * Further properties *)

Section More.
Context {P : Platform}.
Variable settings : Settings.

(** ** Lookups and appended rows *)

Lemma first_by_email_app_found e db l u :
  first_by_email e db = Some u -> first_by_email e (db ++ l)%list = Some u.
Proof.
  unfold first_by_email. induction db as [|v db IH]; cbn [find app];
    [discriminate|].
  destruct (email_is e v); auto.
Qed.

Lemma first_by_email_app_none e db l :
  first_by_email e db = None ->
  first_by_email e (db ++ l)%list = first_by_email e l.
Proof.
  unfold first_by_email. induction db as [|v db IH]; cbn [find app];
    [reflexivity|].
  destruct (email_is e v); [discriminate | auto].
Qed.

(** What one request does, in full: nothing to the table, or a successful
    registration that appends the row it returns. *)
Lemma serve_outcome (q : request) db resp db' :
  serve settings q db = (resp, db') ->
  (db' = db /\ forall row, resp <> Json200 (succeeded "Registration successful." row)) \/
  exists raw r salt now b row,
    q = POST_register raw r salt now /\
    validate_RegisterRequest raw = Some b /\
    first_by_email (RegisterRequest.email b) db = None /\
    openId_used (new_open_id r) db = false /\
    resp = Json200 (succeeded "Registration successful." row) /\
    db' = (db ++ [row])%list /\
    User.openId row = new_open_id r /\
    User.email row = Some (RegisterRequest.email b) /\
    (exists h, pwd_hash (RegisterRequest.password b) salt = Value h /\
               User.passwordHash row = Some h) /\
    User.role row =
      (if negb (OWNER_EMAIL settings =? "")%string
          && (str_lower (RegisterRequest.email b)
              =? str_lower (OWNER_EMAIL settings))%string
       then "admin" else "user").
Proof.
  destruct q as [raw r salt now | raw | raw]; cbn [serve]; unfold route.
  - destruct (validate_RegisterRequest raw) as [b|] eqn:Hv;
      [|intros [= <- <-]; left; split; [reflexivity | discriminate]].
    destruct (register_cases settings b r salt now db)
      as [(u & _ & ->) | [(error & _ & _ & ->) | [(h & _ & _ & _ & ->)
         | (h & Hq & Hh & Hu & _)]]];
      try (intros [= <- <-]; left; split; [reflexivity | discriminate]).
    destruct (register_inserts settings b r salt now db h Hq Hh Hu)
      as (row & -> & _ & Hid & _ & Hemail & Hhash & _ & Hrole & _).
    intros [= <- <-]. right. exists raw, r, salt, now, b, row.
    split; [reflexivity|]. split; [exact Hv|]. split; [exact Hq|].
    split; [exact Hu|]. split; [reflexivity|]. split; [reflexivity|].
    split; [exact Hid|]. split; [exact Hemail|].
    split; [now exists h | exact Hrole].
  - destruct (validate_LoginRequest raw) as [b|];
      [|intros [= <- <-]; left; split; [reflexivity | discriminate]].
    rewrite login_eq. intros [= <- <-]. left. split; [reflexivity|].
    intros row. destruct (credential_check _ _ db); discriminate.
  - unfold validate_VerifyPasswordRequest. rewrite verify_password_eq.
    intros [= <- <-]. left. split; [reflexivity|].
    intros row. cbn [respond].
    destruct (credential_check _ _ db); discriminate.
Qed.

Lemma serve_all_app (qs1 qs2 : list request) : forall db,
  serve_all settings (qs1 ++ qs2) db
  = serve_all settings qs2 (serve_all settings qs1 db).
Proof. induction qs1 as [|q qs1 IH]; intros db; cbn; auto. Qed.

Lemma serve_all_appends (qs : list request) : forall db,
  exists added, serve_all settings qs db = (db ++ added)%list.
Proof.
  induction qs as [|q qs IH]; intros db; cbn [serve_all].
  - exists []. now rewrite app_nil_r.
  - destruct (serve settings q db) as [resp db'] eqn:Hs. cbn [snd].
    destruct (IH db') as (added & ->).
    destruct (serve_outcome q db resp db' Hs)
      as [(-> & _) | (raw & r & salt & now & b & row & _ & _ & _ & _ & _ & -> & _)].
    + now exists added.
    + exists (row :: added). now rewrite <- app_assoc.
Qed.

Lemma openId_unused_not_in o db :
  openId_used o db = false -> ~ In o (map User.openId db).
Proof.
  unfold openId_used. intros Hu Hin. apply in_map_iff in Hin.
  destruct Hin as (u & <- & Hin).
  assert (Ht : existsb (fun v => (User.openId v =? User.openId u)%string) db = true).
  { apply existsb_exists. exists u. split; [exact Hin | apply String.eqb_refl]. }
  congruence.
Qed.

Lemma NoDup_snoc {A : Type} (l : list A) (a : A) :
  NoDup l -> ~ In a l -> NoDup (l ++ [a]).
Proof.
  induction 1 as [|x l Hx Hl IH]; intros Ha; cbn [app].
  - constructor; [apply in_nil | constructor].
  - constructor.
    + rewrite in_app_iff. intros [Hin | [-> | []]]; [tauto|].
      apply Ha. now left.
    + apply IH. intros Hin. apply Ha. now right.
Qed.

(** A successful [register] leaves its row as the one the lookup by its
    email finds, provided the database comparison matches an email with
    itself. *)
Lemma register_then_found (b : RegisterRequest.t) r salt now db resp db' :
  register settings b r salt now db = (Returned resp, db') ->
  sql_eq (RegisterRequest.email b) (RegisterRequest.email b) = true ->
  exists h row,
    db' = (db ++ [row])%list /\
    resp = succeeded "Registration successful." row /\
    first_by_email (RegisterRequest.email b) db = None /\
    first_by_email (RegisterRequest.email b) db' = Some row /\
    pwd_hash (RegisterRequest.password b) salt = Value h /\
    User.passwordHash row = Some h /\
    User.openId row = new_open_id r.
Proof.
  intros Hreg Hrefl.
  destruct (register_returned settings b r salt now db resp db' Hreg)
    as (h & row & Hq & Hh & _ & -> & -> & Hid & Hemail & Hhash & _).
  exists h, row. repeat split; auto.
  rewrite first_by_email_app_none by exact Hq.
  unfold first_by_email. cbn [find]. unfold email_is. now rewrite Hemail, Hrefl.
Qed.

Lemma first_by_email_stable (qs : list request) db e u :
  first_by_email e db = Some u ->
  first_by_email e (serve_all settings qs db) = Some u.
Proof.
  intros Hu. destruct (serve_all_appends qs db) as (added & ->).
  now apply first_by_email_app_found.
Qed.

Lemma credential_check_stable (qs : list request) db e u pw :
  first_by_email e db = Some u ->
  credential_check e pw (serve_all settings qs db) = credential_check e pw db.
Proof.
  intros Hu. unfold credential_check.
  now rewrite (first_by_email_stable qs db e u Hu), Hu.
Qed.

(** ** Further properties of the service *)

(** X1: if no two rows share an openId, then after any sequence of requests
    still no two rows share one. *)
Theorem open_ids_stay_unique (qs : list request) : forall db,
  NoDup (map User.openId db) ->
  NoDup (map User.openId (serve_all settings qs db)).
Proof.
  induction qs as [|q qs IH]; intros db Hnd; cbn [serve_all]; [exact Hnd|].
  destruct (serve settings q db) as [resp db'] eqn:Hs. cbn [snd]. apply IH.
  destruct (serve_outcome q db resp db' Hs)
    as [(-> & _) | (raw & r & salt & now & b & row & _ & _ & _ & Hu & _ & -> & Hid & _)];
    [exact Hnd|].
  rewrite map_app. cbn [map]. apply NoDup_snoc; [exact Hnd|].
  rewrite Hid. now apply openId_unused_not_in.
Qed.

(** X2: a request changes the table only when it is a register request
    answered with the 200 of a successful registration, and then by
    appending the one row it returns; every other answer, and every login
    and verify-password request, leaves the table as it was. *)
Theorem table_changes_only_by_registration (q : request) db resp db' :
  serve settings q db = (resp, db') ->
  (db' = db \/
   exists raw r salt now row,
     q = POST_register raw r salt now /\
     resp = Json200 (succeeded "Registration successful." row) /\
     db' = (db ++ [row])%list) /\
  ((forall a, resp <> Json200 a) -> db' = db) /\
  ((exists raw, q = POST_login raw \/ q = POST_verify_password raw) -> db' = db).
Proof.
  intros Hs.
  destruct (serve_outcome q db resp db' Hs)
    as [(-> & _) | (raw & r & salt & now & b & row & -> & _ & _ & _ & -> & -> & _)].
  - repeat split; auto.
  - split; [|split].
    + right. now exists raw, r, salt, now, row.
    + intros Hno. now destruct (Hno (succeeded "Registration successful." row)).
    + intros (raw' & [H | H]); discriminate.
Qed.

(** X3: the table only grows: after any sequence of requests the rows that
    were there are still there, unchanged and in place, followed by at most
    one new row per request. *)
Theorem table_is_append_only (qs : list request) : forall db,
  exists added,
    serve_all settings qs db = (db ++ added)%list /\
    (List.length added <= List.length qs)%nat.
Proof.
  induction qs as [|q qs IH]; intros db; cbn [serve_all].
  - exists []. split; [now rewrite app_nil_r | reflexivity].
  - destruct (serve settings q db) as [resp db'] eqn:Hs. cbn [snd].
    destruct (IH db') as (added & -> & Hlen).
    destruct (serve_outcome q db resp db' Hs)
      as [(-> & _) | (raw & r & salt & now & b & row & _ & _ & _ & _ & _ & -> & _)].
    + exists added. split; [reflexivity | cbn; lia].
    + exists (row :: added). split; [now rewrite <- app_assoc | cbn; lia].
Qed.

(** X4: once the lookup by an email finds a row, it finds that same row
    after any sequence of later requests, so the answers of [login] and
    [verify_password] for that email and any password stay what they
    were. *)
Theorem found_row_is_stable (qs : list request) db e u :
  first_by_email e db = Some u ->
  first_by_email e (serve_all settings qs db) = Some u /\
  (forall pw,
     fst (login {| LoginRequest.email := e; LoginRequest.password := pw |}
            (serve_all settings qs db))
     = fst (login {| LoginRequest.email := e; LoginRequest.password := pw |} db)) /\
  (forall pw,
     fst (verify_password
            {| VerifyPasswordRequest.email := e;
               VerifyPasswordRequest.password := pw |}
            (serve_all settings qs db))
     = fst (verify_password
              {| VerifyPasswordRequest.email := e;
                 VerifyPasswordRequest.password := pw |} db)).
Proof.
  intros Hu. split; [now apply first_by_email_stable|]. split; intros pw.
  - rewrite !login_eq. cbn [fst LoginRequest.email LoginRequest.password].
    now rewrite (credential_check_stable qs db e u pw Hu).
  - rewrite !verify_password_eq.
    cbn [fst VerifyPasswordRequest.email VerifyPasswordRequest.password].
    now rewrite (credential_check_stable qs db e u pw Hu).
Qed.

(** X5: register, then log in.  When the database comparison matches the
    email with itself, the hash made for the password is non-empty and
    verifies against that password, then after a successful [register]
    both [login] and [verify_password] with the same email and password
    succeed and return the user [register] returned; a password the hash
    does not verify against is refused. *)
Theorem register_then_login (b : RegisterRequest.t) r salt now db resp db' h :
  register settings b r salt now db = (Returned resp, db') ->
  sql_eq (RegisterRequest.email b) (RegisterRequest.email b) = true ->
  pwd_hash (RegisterRequest.password b) salt = Value h ->
  h <> "" ->
  pwd_verify (RegisterRequest.password b) h = Value true ->
  login {| LoginRequest.email := RegisterRequest.email b;
           LoginRequest.password := RegisterRequest.password b |} db'
  = (Returned {| AuthResponse.success := true;
                 AuthResponse.user := AuthResponse.user resp;
                 AuthResponse.message := Some "Login successful." |}, db') /\
  verify_password
    {| VerifyPasswordRequest.email := RegisterRequest.email b;
       VerifyPasswordRequest.password := RegisterRequest.password b |} db'
  = (Returned {| AuthResponse.success := true;
                 AuthResponse.user := AuthResponse.user resp;
                 AuthResponse.message := Some "Password verified." |}, db') /\
  (forall pw,
     pwd_verify pw h = Value false ->
     login {| LoginRequest.email := RegisterRequest.email b;
              LoginRequest.password := pw |} db'
     = (Raised AuthError, db')).
Proof.
  intros Hreg Hrefl Hh Hne Hok.
  destruct (register_then_found b r salt now db resp db' Hreg Hrefl)
    as (h' & row & _ & -> & _ & Hfound & Hh' & Hhash & _).
  assert (h' = h) as -> by congruence.
  assert (Hcheck : forall pw v,
            pwd_verify pw h = Value v ->
            credential_check (RegisterRequest.email b) pw db'
            = if v then Verified row else Mismatch).
  { intros pw v Hv. apply check_verdict. exists h. auto. }
  split; [|split].
  - rewrite login_eq. cbn [LoginRequest.email LoginRequest.password].
    now rewrite (Hcheck _ true Hok).
  - rewrite verify_password_eq.
    cbn [VerifyPasswordRequest.email VerifyPasswordRequest.password].
    now rewrite (Hcheck _ true Hok).
  - intros pw Hbad. rewrite login_eq.
    cbn [LoginRequest.email LoginRequest.password].
    now rewrite (Hcheck _ false Hbad).
Qed.

(** X6: an email that has been registered stays taken.  When the database
    comparison matches the email with itself, then after a successful
    [register] and any sequence of further requests, every [register] with
    that email, whatever its password, name and random inputs, raises the
    conflict error and leaves the table as it is. *)
Theorem registered_email_stays_taken (b : RegisterRequest.t) r salt now db
    resp db' :
  register settings b r salt now db = (Returned resp, db') ->
  sql_eq (RegisterRequest.email b) (RegisterRequest.email b) = true ->
  forall (qs : list request) (b2 : RegisterRequest.t) r2 salt2 now2,
    RegisterRequest.email b2 = RegisterRequest.email b ->
    register settings b2 r2 salt2 now2 (serve_all settings qs db')
    = (Raised ConflictError, serve_all settings qs db').
Proof.
  intros Hreg Hrefl qs b2 r2 salt2 now2 Hsame.
  destruct (register_then_found b r salt now db resp db' Hreg Hrefl)
    as (h & row & _ & _ & _ & Hfound & _).
  apply register_taken with row. rewrite Hsame.
  now apply first_by_email_stable.
Qed.


Lemma emails_unique_snoc db row e :
  emails_unique db -> User.email row = Some e ->
  first_by_email e db = None -> emails_unique (db ++ [row])%list.
Proof.
  intros Huniq Hemail Hnone pre u post e' Hsplit He'.
  destruct post as [|v post] using rev_ind.
  - apply app_inj_tail in Hsplit. destruct Hsplit as (<- & <-). congruence.
  - clear IHpost. rewrite app_comm_cons, app_assoc in Hsplit.
    apply app_inj_tail in Hsplit. destruct Hsplit as (Hdb & _).
    now apply (Huniq pre u post e').
Qed.

(** X8: requests served one after another keep emails unique: if no row's
    email is matched by an earlier row, this still holds after any sequence
    of requests. *)
Theorem emails_stay_unique (qs : list request) : forall db,
  emails_unique db -> emails_unique (serve_all settings qs db).
Proof.
  induction qs as [|q qs IH]; intros db Hu; cbn [serve_all]; [exact Hu|].
  destruct (serve settings q db) as [resp db'] eqn:Hs. cbn [snd]. apply IH.
  destruct (serve_outcome q db resp db' Hs)
    as [(-> & _) | (raw & r & salt & now & b & row & _ & _ & Hq & _ & _ & -> & _ & He & _)];
    [exact Hu|].
  now apply emails_unique_snoc with (RegisterRequest.email b).
Qed.

(** X12: the login route answers for the normalised address.  When the
    address check accepts the email and the password is not empty, the login
    route gives its 200 exactly when the verify-password route, called with
    the normalised address and the same password, gives success with the
    same user, and gives its 401 exactly when that route gives one of its two
    soft failures. *)
Theorem login_route_uses_normalised_email (raw : RawBody) db e :
  validate_email (raw_email raw) = Some e ->
  raw_password raw <> "" ->
  (forall u,
     serve settings (POST_login raw) db
     = (Json200 (succeeded "Login successful." u), db) <->
     serve settings
       (POST_verify_password
          {| raw_email := e; raw_password := raw_password raw;
             raw_name := raw_name raw |}) db
     = (Json200 (succeeded "Password verified." u), db)) /\
  (serve settings (POST_login raw) db
   = (HttpError 401 "Invalid email or password.", db) <->
   exists reason,
     serve settings
       (POST_verify_password
          {| raw_email := e; raw_password := raw_password raw;
             raw_name := raw_name raw |}) db
     = (Json200 (soft_failure reason), db)).
Proof.
  intros He Hpw. cbn [serve]. unfold route, validate_LoginRequest,
    validate_VerifyPasswordRequest.
  rewrite He.
  assert (Hlen : (1 <=? len (raw_password raw)) = true).
  { apply Z.leb_le. unfold len. destruct (raw_password raw); [congruence|].
    cbn [String.length]. lia. }
  rewrite Hlen, login_eq, verify_password_eq.
  cbn [raw_email raw_password LoginRequest.email LoginRequest.password
       VerifyPasswordRequest.email VerifyPasswordRequest.password respond].
  destruct (credential_check e (raw_password raw) db) as [| |u0|error];
    cbn [respond].
  - split; [intros u; split; discriminate|].
    split; [intros _; now exists reason_A | reflexivity].
  - split; [intros u; split; discriminate|].
    split; [intros _; now exists reason_B | reflexivity].
  - split.
    + intros u. unfold succeeded, UserResponse.model_validate.
      split; intros H; injection H as E1 E2 E3 E4 E5;
        now rewrite E1, E2, E3, E4, E5.
    + split; [discriminate | intros (reason & H); discriminate].
  - split; [intros u; split; discriminate|].
    split; [discriminate | intros (reason & H); discriminate].
Qed.

Lemma serve_all_added_roles (qs : list request) : forall db u,
  In u (serve_all settings qs db) ->
  In u db \/
  exists e, User.email u = Some e /\
            User.role u =
              (if negb (OWNER_EMAIL settings =? "")%string
                  && (str_lower e =? str_lower (OWNER_EMAIL settings))%string
               then "admin" else "user").
Proof.
  induction qs as [|q qs IH]; intros db u Hin; cbn [serve_all] in Hin;
    [now left|].
  destruct (serve settings q db) as [resp db'] eqn:Hs. cbn [snd] in Hin.
  apply IH in Hin. destruct Hin as [Hin | Hnew]; [|now right].
  destruct (serve_outcome q db resp db' Hs)
    as [(-> & _) | (raw & r & salt & now & b & row & _ & _ & _ & _ & _ & -> & _ & He & _ & Hrole)];
    [now left|].
  apply in_app_or in Hin. destruct Hin as [Hin | [<- | []]]; [now left|].
  right. now exists (RegisterRequest.email b).
Qed.

(** X13: who becomes admin.  A row added by any sequence of requests has
    role admin exactly when its email equals the configured owner email up
    to case, and role user otherwise; with no owner email configured, the
    default, no request ever adds an admin. *)
Theorem admin_only_for_owner_email (qs : list request) db u :
  In u (serve_all settings qs db) ->
  In u db \/
  (exists e, User.email u = Some e /\
             (User.role u = "admin" <-> owner_matches settings e) /\
             (User.role u = "user" <-> ~ owner_matches settings e)) /\
  (OWNER_EMAIL settings = "" -> User.role u = "user").
Proof.
  intros Hin. destruct (serve_all_added_roles qs db u Hin)
    as [Hold | (e & He & Hrole)]; [now left|].
  right. split.
  - exists e. split; [exact He|]. rewrite Hrole, (owner_matches_spec settings e).
    destruct (negb (OWNER_EMAIL settings =? "")%string
              && (str_lower e =? str_lower (OWNER_EMAIL settings))%string);
      split; split; try reflexivity; try discriminate; auto.
    intros H. now destruct H.
  - intros Hnone. rewrite Hrole, Hnone. reflexivity.
Qed.
End More.

(** ** Which random bits the identifier keeps *)

Lemma hex_value_digit (d : Z) : 0 <= d < 16 -> hex_value (hex_digit d) = d.
Proof.
  intros Hd. apply hex_digit_cases in Hd.
  repeat (destruct Hd as [-> | Hd]; [reflexivity|]). now subst.
Qed.

Lemma hex_digits_same (h h' : Z) : forall w,
  hex_digits w h = hex_digits w h' <->
  (forall k, (k < w)%nat -> nibble h k = nibble h' k).
Proof.
  induction w as [|w IH]; cbn [hex_digits].
  - split; [intros _ k Hk; lia | reflexivity].
  - split.
    + intros [= Hd Hrest] k Hk.
      destruct (Nat.eq_dec k w) as [-> | Hne].
      * rewrite <- (hex_value_digit (nibble h w)) by apply nibble_range.
        rewrite <- (hex_value_digit (nibble h' w)) by apply nibble_range.
        now rewrite Hd.
      * apply IH; [exact Hrest | lia].
    + intros H. f_equal; [f_equal; apply H; lia|].
      apply IH. intros k Hk. apply H. lia.
Qed.

Lemma nibbles_same_bits (h h' : Z) (w : nat) :
  (forall k, (k < w)%nat -> nibble h k = nibble h' k) <->
  (forall i, 0 <= i < 4 * Z.of_nat w -> Z.testbit h i = Z.testbit h' i).
Proof.
  split.
  - intros H i Hi.
    assert (Hk : (Z.to_nat (i / 4) < w)%nat)
      by (apply Nat2Z.inj_lt; rewrite Z2Nat.id by (apply Z.div_pos; lia);
          apply Z.div_lt_upper_bound; lia).
    specialize (H _ Hk).
    apply (f_equal (fun n => Z.testbit n (i mod 4))) in H.
    rewrite !nibble_bits in H by (apply Z.mod_pos_bound; lia).
    rewrite Z2Nat.id in H by (apply Z.div_pos; lia).
    replace (4 * (i / 4) + i mod 4) with i in H
      by (rewrite (Z.div_mod i 4) at 1 by lia; reflexivity).
    replace (i mod 4 <? 4) with true in H
      by (symmetry; apply Z.ltb_lt; apply Z.mod_pos_bound; lia).
    now rewrite !andb_true_r in H.
  - intros H k Hk. apply Z.bits_inj'. intros j Hj.
    rewrite !nibble_bits by lia.
    destruct (Z.ltb_spec j 4); [|now rewrite !andb_false_r].
    rewrite !andb_true_r. apply H. lia.
Qed.

Lemma local_prefix_inj (x y : string) : "local_" ++ x = "local_" ++ y -> x = y.
Proof. cbn. now intros [= ->]. Qed.

Lemma string_of_list_ascii_inj (l l' : list ascii) :
  string_of_list_ascii l = string_of_list_ascii l' -> l = l'.
Proof.
  intros H. apply (f_equal list_ascii_of_string) in H.
  now rewrite !list_ascii_of_string_of_list_ascii in H.
Qed.

Lemma uuid4_top_bits (r r' : Z) :
  (forall i, 0 <= i < 4 * Z.of_nat 16 ->
     Z.testbit (Z.shiftr (uuid4_int r) 64) i
     = Z.testbit (Z.shiftr (uuid4_int r') 64) i) <->
  (forall k, open_id_bit k -> Z.testbit r k = Z.testbit r' k).
Proof.
  unfold open_id_bit. split.
  - intros H k (Hk & Hv). specialize (H (k - 64)).
    rewrite !Z.shiftr_spec, !uuid4_int_bits_high in H by lia.
    replace (k - 64 + 64) with k in H by lia.
    replace ((76 <=? k) && (k <? 80)) with false in H.
    + apply H. lia.
    + symmetry. apply andb_false_iff.
      destruct (Z.leb_spec 76 k); [right; apply Z.ltb_ge; lia | now left].
  - intros H i Hi. rewrite !Z.shiftr_spec, !uuid4_int_bits_high by lia.
    destruct ((76 <=? i + 64) && (i + 64 <? 80)) eqn:Hv; [reflexivity|].
    apply H. split; [lia|]. intros Hin.
    apply andb_false_iff in Hv. destruct Hv as [Hv | Hv];
      [apply Z.leb_gt in Hv | apply Z.ltb_ge in Hv]; lia.
Qed.

(** X9: every identifier has 22 characters, and two random integers give
    the same identifier exactly when they agree on bits 64 to 75 and 80 to
    127: the other 68 random bits never reach the identifier. *)
Theorem open_id_keeps_sixty_bits (r r' : Z) :
  String.length (new_open_id r) = 22%nat /\
  (new_open_id r = new_open_id r' <->
   forall k, open_id_bit k -> Z.testbit r k = Z.testbit r' k).
Proof.
  rewrite !new_open_id_eq. split.
  - cbn [append String.length]. now rewrite string_of_list_length, hex_digits_length.
  - rewrite <- uuid4_top_bits, <- nibbles_same_bits, <- hex_digits_same. split.
    + intros H. now apply string_of_list_ascii_inj, local_prefix_inj.
    + now intros ->.
Qed.

Lemma open_id_keeps_sixty_bits_witness :
  new_open_id (2 ^ 64) = new_open_id (2 ^ 64 + 5 + 2 ^ 77) /\
  new_open_id (2 ^ 64) <> new_open_id (2 ^ 65).
Proof.
  split.
  - apply (open_id_keeps_sixty_bits (2 ^ 64) (2 ^ 64 + 5 + 2 ^ 77)).
    intros k (Hk & Hv).
    assert (Hc : exists n, (n < 64)%nat /\ k = 64 + Z.of_nat n)
      by (exists (Z.to_nat (k - 64)); lia).
    destruct Hc as (n & Hn & ->).
    do 64 (destruct n as [|n]; [try reflexivity; lia|]). lia.
  - intros H.
    pose proof (proj1 (proj2 (open_id_keeps_sixty_bits (2 ^ 64) (2 ^ 65))) H 64)
      as Hbit.
    discriminate Hbit. unfold open_id_bit. lia.
Defined.

(** ** The CORS origins *)

Lemma lstrip_head (s : string) :
  lstrip s = "" \/ exists c t, lstrip s = String c t /\ isspace c = false.
Proof.
  induction s as [|c s IH]; cbn [lstrip]; [now left|].
  destruct (isspace c) eqn:Hc; [exact IH|]. right. now exists c, s.
Qed.

Lemma rstrip_cons (c : ascii) (t : string) :
  isspace c = false -> rstrip (String c t) = String c (rstrip t).
Proof. intros Hc. cbn [rstrip]. rewrite Hc. now destruct (rstrip t). Qed.

Lemma rstrip_idem (s : string) : rstrip (rstrip s) = rstrip s.
Proof.
  induction s as [|c s IH]; [reflexivity|]. cbn [rstrip].
  destruct (rstrip s) as [|d k] eqn:Hk.
  - destruct (isspace c) eqn:Hc; [reflexivity|]. cbn [rstrip]. now rewrite Hc.
  - change (rstrip (String c (String d k))) with
      (match rstrip (String d k) with
       | "" => if isspace c then "" else String c ""
       | kept => String c kept
       end).
    now rewrite IH.
Qed.

Lemma strip_idem (s : string) : strip (strip s) = strip s.
Proof.
  unfold strip. destruct (lstrip_head s) as [-> | (c & t & -> & Hc)];
    [reflexivity|].
  rewrite (rstrip_cons c t Hc). cbn [lstrip]. rewrite Hc.
  rewrite (rstrip_cons c _ Hc). now rewrite rstrip_idem.
Qed.

Lemma lstrip_chars (a : ascii) (s : string) :
  In a (list_ascii_of_string (lstrip s)) -> In a (list_ascii_of_string s).
Proof.
  induction s as [|c s IH]; cbn [lstrip]; [auto|].
  destruct (isspace c); [|auto]. intros H. right. auto.
Qed.

Lemma rstrip_chars (a : ascii) (s : string) :
  In a (list_ascii_of_string (rstrip s)) -> In a (list_ascii_of_string s).
Proof.
  induction s as [|c s IH]; cbn [rstrip]; [auto|].
  destruct (rstrip s) as [|d k].
  - destruct (isspace c); cbn; tauto.
  - cbn [list_ascii_of_string In] in *. tauto.
Qed.

Lemma strip_chars (a : ascii) (s : string) :
  In a (list_ascii_of_string (strip s)) -> In a (list_ascii_of_string s).
Proof. intros H. now apply lstrip_chars, rstrip_chars. Qed.

Lemma split_cons (sep c : ascii) (s : string) :
  split sep (String c s) =
    if (c =? sep)%char then "" :: split sep s
    else match split sep s with
         | piece :: pieces => String c piece :: pieces
         | [] => [String c ""]
         end.
Proof. reflexivity. Qed.

Lemma split_nonempty (sep : ascii) (s : string) : split sep s <> [].
Proof.
  destruct s as [|c s]; cbn [split]; [discriminate|].
  destruct (c =? sep)%char; [discriminate|].
  destruct (split sep s); discriminate.
Qed.

Lemma split_pieces_free (sep : ascii) (s : string) : forall p,
  In p (split sep s) -> ~ In sep (list_ascii_of_string p).
Proof.
  induction s as [|c s IH]; cbn [split]; intros p.
  - intros [<- | []]. auto.
  - destruct (Ascii.eqb_spec c sep) as [-> | Hne].
    + intros [<- | H]; [auto | now apply IH].
    + destruct (split sep s) as [|q qs]; intros [<- | H].
      * cbn. intros [-> | []]. now apply Hne.
      * destruct H.
      * cbn [list_ascii_of_string In]. intros [-> | Hin]; [now apply Hne|].
        apply (IH q); [now left | exact Hin].
      * apply IH. now right.
Qed.

Lemma split_free (sep : ascii) (s : string) :
  ~ In sep (list_ascii_of_string s) -> split sep s = [s].
Proof.
  induction s as [|c s IH]; [reflexivity|].
  rewrite split_cons. cbn [list_ascii_of_string In]. intros H.
  destruct (Ascii.eqb_spec c sep) as [-> | Hne]; [tauto|].
  rewrite IH by tauto. reflexivity.
Qed.

Lemma split_app_sep (sep : ascii) (x t : string) :
  ~ In sep (list_ascii_of_string x) ->
  split sep (x ++ String sep t) = x :: split sep t.
Proof.
  induction x as [|c x IH]; cbn [append list_ascii_of_string In];
    rewrite split_cons.
  - intros _. now rewrite Ascii.eqb_refl.
  - intros H. destruct (Ascii.eqb_spec c sep) as [-> | Hne]; [tauto|].
    rewrite IH by tauto. reflexivity.
Qed.

Lemma split_concat (sep : ascii) (l : list string) :
  l <> [] ->
  Forall (fun o => ~ In sep (list_ascii_of_string o)) l ->
  split sep (String.concat (String sep "") l) = l.
Proof.
  intros Hne Hfree. induction Hfree as [|x l Hx Hl IH]; [now destruct Hne|].
  destruct l as [|y l].
  - now apply split_free.
  - change (String.concat (String sep "") (x :: y :: l))
      with (x ++ String sep (String.concat (String sep "") (y :: l))).
    rewrite split_app_sep by exact Hx. f_equal. apply IH. discriminate.
Qed.

Lemma keep_clean (l : list string) :
  Forall clean_origin l ->
  map strip (filter (fun o => negb (strip o =? "")%string) l) = l.
Proof.
  induction 1 as [|o l (Hne & Hs & _) _ IH]; [reflexivity|].
  cbn [filter]. rewrite Hs. apply String.eqb_neq in Hne. rewrite Hne.
  cbn [negb map]. now rewrite Hs, IH.
Qed.

Lemma rstrip_last (s : string) :
  rstrip s = "" \/ exists c, last_char (rstrip s) = Some c /\ isspace c = false.
Proof.
  induction s as [|a s IH]; [now left|]. cbn [rstrip].
  destruct (rstrip s) as [|d k] eqn:Hk.
  - destruct (isspace a) eqn:Ha; [now left|]. right. now exists a.
  - right. destruct IH as [IH | (c & Hc & Hs)]; [discriminate|].
    exists c. split; [|exact Hs]. exact Hc.
Qed.

Lemma strip_ends (s : string) :
  strip s = "" \/
  (exists c, first_char (strip s) = Some c /\ isspace c = false) /\
  (exists c, last_char (strip s) = Some c /\ isspace c = false).
Proof.
  unfold strip. destruct (lstrip_head s) as [-> | (c & t & -> & Hc)];
    [now left|].
  right. split.
  - rewrite (rstrip_cons c t Hc). now exists c.
  - destruct (rstrip_last (String c t)) as [H | H]; [|exact H].
    rewrite (rstrip_cons c t Hc) in H. discriminate.
Qed.

Lemma lstrip_keeps (c : ascii) (s : string) :
  isspace c = false -> In c (list_ascii_of_string s) ->
  In c (list_ascii_of_string (lstrip s)).
Proof.
  intros Hc. induction s as [|a s IH]; [auto|]. cbn [lstrip].
  destruct (isspace a) eqn:Ha; [|auto].
  cbn [list_ascii_of_string In]. intros [-> | Hin]; [congruence | auto].
Qed.

Lemma rstrip_keeps (c : ascii) (s : string) :
  isspace c = false -> In c (list_ascii_of_string s) ->
  In c (list_ascii_of_string (rstrip s)).
Proof.
  intros Hc. induction s as [|a s IH]; [auto|].
  cbn [rstrip list_ascii_of_string In]. intros [-> | Hin].
  - rewrite Hc. destruct (rstrip s); now left.
  - specialize (IH Hin). destruct (rstrip s) as [|d k]; [destruct IH|].
    now right.
Qed.

Lemma split_covers (sep c : ascii) (s : string) :
  c <> sep -> In c (list_ascii_of_string s) ->
  exists p, In p (split sep s) /\ In c (list_ascii_of_string p).
Proof.
  intros Hc. induction s as [|a s IH]; [intros []|].
  rewrite split_cons. cbn [list_ascii_of_string In].
  destruct (Ascii.eqb_spec a sep) as [-> | Hne].
  - intros [Heq | Hin]; [congruence|].
    destruct (IH Hin) as (p & Hp & Hcp). exists p. split; [now right | exact Hcp].
  - intros [-> | Hin].
    + destruct (split sep s) as [|q qs]; eexists; (split; [now left|now left]).
    + destruct (IH Hin) as (p & Hp & Hcp).
      destruct (split sep s) as [|q qs]; [destruct Hp|].
      destruct Hp as [-> | Hp].
      * exists (String a p). split; [now left | now right].
      * exists p. split; [now right | exact Hcp].
Qed.

Lemma split_chars (sep c : ascii) (s : string) : forall p,
  In p (split sep s) -> In c (list_ascii_of_string p) ->
  In c (list_ascii_of_string s).
Proof.
  induction s as [|a s IH]; intros p; [intros [<- | []]; auto|].
  rewrite split_cons. cbn [list_ascii_of_string In].
  destruct (a =? sep)%char.
  - intros [<- | Hp] Hin; [destruct Hin|]. right. now apply (IH p).
  - destruct (split sep s) as [|q qs].
    + intros [<- | []]. cbn. tauto.
    + intros [<- | Hp]; cbn [list_ascii_of_string In].
      * intros [-> | Hin]; [now left|]. right. apply (IH q); [now left | exact Hin].
      * intros Hin. right. apply (IH p); [now right | exact Hin].
Qed.

(** X10: every origin the service hands to the CORS middleware starts and
    ends with a character that is not white space and contains no comma,
    whatever the value of [CORS_ORIGINS]; the origins are made of characters
    of the setting, and every character of the setting that is neither
    white space nor a comma is in one of them; an empty setting gives no
    origin. *)
Theorem origins_are_clean (CORS_ORIGINS : string) :
  Forall trimmed_origin (origins CORS_ORIGINS) /\
  (forall o c, In o (origins CORS_ORIGINS) ->
               In c (list_ascii_of_string o) ->
               In c (list_ascii_of_string CORS_ORIGINS)) /\
  (forall c, In c (list_ascii_of_string CORS_ORIGINS) ->
             isspace c = false -> c <> ","%char ->
             exists o, In o (origins CORS_ORIGINS) /\
                       In c (list_ascii_of_string o)) /\
  origins "" = [].
Proof.
  split; [|split; [|split; [|reflexivity]]].
  - apply Forall_forall. intros o Hin. unfold origins in Hin.
    apply in_map_iff in Hin. destruct Hin as (p & <- & Hp).
    apply filter_In in Hp. destruct Hp as (Hp & Hkeep).
    apply negb_true_iff, String.eqb_neq in Hkeep.
    destruct (strip_ends p) as [Hempty | (Hfirst & Hlast)]; [contradiction|].
    split; [exact Hfirst|]. split; [exact Hlast|].
    intros Hc. apply strip_chars in Hc.
    now apply (split_pieces_free ","%char CORS_ORIGINS p).
  - intros o c Hin Hc. unfold origins in Hin.
    apply in_map_iff in Hin. destruct Hin as (p & <- & Hp).
    apply filter_In in Hp. destruct Hp as (Hp & _).
    apply strip_chars in Hc. now apply (split_chars ","%char c CORS_ORIGINS p).
  - intros c Hin Hspace Hcomma.
    destruct (split_covers ","%char c CORS_ORIGINS Hcomma Hin) as (p & Hp & Hcp).
    assert (Hkept : In c (list_ascii_of_string (strip p)))
      by (unfold strip; now apply rstrip_keeps, lstrip_keeps).
    exists (strip p). split; [|exact Hkept].
    unfold origins. apply in_map. apply filter_In. split; [exact Hp|].
    apply negb_true_iff, String.eqb_neq. intros Hempty.
    rewrite Hempty in Hkept. destruct Hkept.
Qed.

Lemma origins_are_clean_witness :
  origins " http://localhost:3000 , ,https://ais.example"
  = ["http://localhost:3000"; "https://ais.example"] /\
  exists o, In o (origins " http://localhost:3000 , ,https://ais.example") /\
            In "x"%char (list_ascii_of_string o).
Proof.
  split; [reflexivity|].
  apply (origins_are_clean " http://localhost:3000 , ,https://ais.example");
    [cbn; tauto | reflexivity | discriminate].
Defined.

(** X11: a list of clean origins, written as a comma-separated setting, is
    read back unchanged. *)
Theorem origins_of_joined (l : list string) :
  Forall clean_origin l -> origins (String.concat "," l) = l.
Proof.
  intros Hclean. unfold origins. destruct l as [|o l]; [reflexivity|].
  rewrite split_concat; [now apply keep_clean | discriminate |].
  apply Forall_forall. intros p Hp.
  rewrite Forall_forall in Hclean. now destruct (Hclean p Hp) as (_ & _ & H).
Qed.

Lemma origins_of_joined_witness :
  origins "http://localhost:3000,https://ais.example" =
    ["http://localhost:3000"; "https://ais.example"].
Proof.
  apply (origins_of_joined ["http://localhost:3000"; "https://ais.example"]).
  repeat constructor; try discriminate; cbn; intuition discriminate.
Defined.

(** * The further properties on the scenario *)

Lemma open_ids_stay_unique_witness : NoDup (map User.openId scenario_db).
Proof.
  exact (open_ids_stay_unique (P := toy_platform) owner_settings
           [POST_register (body "owner@x.com" "longpassword1") 0 "s1" 100;
            POST_register (body "a@x.com" "longpassword1") (2 ^ 64) "s2" 200]
           [] (NoDup_nil _)).
Defined.

Lemma table_changes_only_by_registration_witness :
  snd (serve (P := toy_platform) owner_settings
         (POST_register (body "a@x.com" "other12345") (2 ^ 66) "s3" 300)
         scenario_db)
  = scenario_db.
Proof.
  refine (proj1 (proj2 (table_changes_only_by_registration (P := toy_platform)
           owner_settings
           (POST_register (body "a@x.com" "other12345") (2 ^ 66) "s3" 300)
           scenario_db _ _ (surjective_pairing _))) _).
  intros a. discriminate.
Defined.

Lemma found_row_is_stable_witness :
  exists u,
    first_by_email (P := toy_platform) "a@x.com" scenario_db = Some u /\
    first_by_email (P := toy_platform) "a@x.com"
      (serve_all (P := toy_platform) owner_settings
         [POST_register (body "b@x.com" "longpassword1") (2 ^ 65) "s3" 300;
          POST_register (body "a@x.com" "other12345") (2 ^ 66) "s4" 400]
         scenario_db)
    = Some u.
Proof.
  eexists.
  assert (H : first_by_email (P := toy_platform) "a@x.com" scenario_db = Some _)
    by (cbv; reflexivity).
  split; [exact H|].
  apply (found_row_is_stable (P := toy_platform) owner_settings _ _ _ _ H).
Defined.

Lemma register_then_login_witness :
  exists resp db',
    register (P := toy_platform) owner_settings
      (register_request "a@x.com" "longpassword1") 0 "s1" 100 []
    = (Returned resp, db') /\
    login (P := toy_platform) (login_request "a@x.com" "longpassword1") db'
    = (Returned {| AuthResponse.success := true;
                   AuthResponse.user := AuthResponse.user resp;
                   AuthResponse.message := Some "Login successful." |}, db').
Proof.
  eexists _, _.
  assert (H : register (P := toy_platform) owner_settings
                (register_request "a@x.com" "longpassword1") 0 "s1" 100 []
              = (Returned _, _)) by (cbv; reflexivity).
  split; [exact H|].
  apply (register_then_login (P := toy_platform) owner_settings _ _ _ _ _ _ _
           "$toy$s1$longpassword1" H);
    [reflexivity | reflexivity | discriminate | reflexivity].
Defined.

Lemma registered_email_stays_taken_witness :
  exists resp db',
    register (P := toy_platform) owner_settings
      (register_request "a@x.com" "longpassword1") 0 "s1" 100 []
    = (Returned resp, db') /\
    register (P := toy_platform) owner_settings
      (register_request "a@x.com" "other12345") (2 ^ 66) "s4" 400
      (serve_all (P := toy_platform) owner_settings
         [POST_register (body "b@x.com" "longpassword1") (2 ^ 65) "s3" 300] db')
    = (Raised ConflictError,
       serve_all (P := toy_platform) owner_settings
         [POST_register (body "b@x.com" "longpassword1") (2 ^ 65) "s3" 300] db').
Proof.
  eexists _, _.
  assert (H : register (P := toy_platform) owner_settings
                (register_request "a@x.com" "longpassword1") 0 "s1" 100 []
              = (Returned _, _)) by (cbv; reflexivity).
  split; [exact H|].
  apply (registered_email_stays_taken (P := toy_platform) owner_settings
           _ _ _ _ _ _ _ H eq_refl).
  reflexivity.
Defined.


Lemma emails_stay_unique_witness :
  emails_unique (P := toy_platform) scenario_db /\
  map User.email scenario_db = [Some "owner@x.com"; Some "a@x.com"].
Proof.
  split; [|reflexivity].
  apply (emails_stay_unique (P := toy_platform) owner_settings
           [POST_register (body "owner@x.com" "longpassword1") 0 "s1" 100;
            POST_register (body "a@x.com" "longpassword1") (2 ^ 64) "s2" 200]
           []).
  intros pre u post e H. destruct pre; discriminate H.
Defined.

Lemma login_route_uses_normalised_email_witness :
  serve (P := toy_platform) owner_settings
    (POST_login (body "a@x.com" "wrong")) scenario_db
  = (HttpError 401 "Invalid email or password.", scenario_db) <->
  exists reason,
    serve (P := toy_platform) owner_settings
      (POST_verify_password (body "a@x.com" "wrong")) scenario_db
    = (Json200 (soft_failure reason), scenario_db).
Proof.
  apply (login_route_uses_normalised_email (P := toy_platform) owner_settings
           (body "a@x.com" "wrong") scenario_db "a@x.com");
    [reflexivity | discriminate].
Defined.

Lemma admin_only_for_owner_email_witness :
  In (nth 0 scenario_db social_row) [] \/
  (exists e, User.email (nth 0 scenario_db social_row) = Some e /\
             (User.role (nth 0 scenario_db social_row) = "admin" <->
              owner_matches (P := toy_platform) owner_settings e) /\
             (User.role (nth 0 scenario_db social_row) = "user" <->
              ~ owner_matches (P := toy_platform) owner_settings e)) /\
  (OWNER_EMAIL owner_settings = "" ->
   User.role (nth 0 scenario_db social_row) = "user").
Proof.
  apply (admin_only_for_owner_email (P := toy_platform) owner_settings
           [POST_register (body "owner@x.com" "longpassword1") 0 "s1" 100;
            POST_register (body "a@x.com" "longpassword1") (2 ^ 64) "s2" 200]
           [] (nth 0 scenario_db social_row)).
  left. reflexivity.
Defined.
